(** * Mock ingestion pipeline: chunking, embedding and dual-ledger bookkeeping

    A shallow embedding of [mock_ingestion_pipeline.py].

    - A Python [str] is a [string]; its characters are the code points
      below 256.
    - A Python [int] is a [Z].
    - A Python [dict] used as a map is a [gmap]; a dict built with a fixed
      set of keys (the metadata mapping, a ledger row, a store entry) is a
      record.
    - A method that mutates the pipeline is a computation in a state and
      exception monad.  The state survives a raised exception, as the
      mutated objects do in Python. *)

From Stdlib Require Import ZArith Ascii String List Lia.
From Stdlib Require Import Floats.
From stdpp Require Import base tactics option list gmap strings pretty.

Local Open Scope string_scope.
Local Open Scope Z_scope.

(** ** Python values and exceptions *)

(** The values a product record holds: [None], a [str] or an [int]. *)
Inductive pyval : Type :=
  | PNone
  | PStr (s : string)
  | PInt (z : Z).

Inductive exn : Type :=
  | KeyError (key : string)
  | AttributeError
  | ValueError.

(** The outcome of a call that may raise. *)
Inductive res (A : Type) : Type :=
  | Ok (a : A)
  | Raise (e : exn).
Arguments Ok {A} a.
Arguments Raise {A} e.

#[global] Instance pyval_eq_dec : EqDecision pyval.
Proof. solve_decision. Defined.

#[global] Instance exn_eq_dec : EqDecision exn.
Proof. solve_decision. Defined.

Definition pyval_code (v : pyval) : unit + (string + Z) :=
  match v with
  | PNone => inl tt
  | PStr s => inr (inl s)
  | PInt z => inr (inr z)
  end.

Definition pyval_decode (c : unit + (string + Z)) : pyval :=
  match c with
  | inl _ => PNone
  | inr (inl s) => PStr s
  | inr (inr z) => PInt z
  end.

#[global] Instance pyval_countable : Countable pyval.
Proof.
  apply (inj_countable' pyval_code pyval_decode).
  intros []; reflexivity.
Defined.

(** [str(v)], as an f-string formats a value. *)
Definition py_str (v : pyval) : string :=
  match v with
  | PNone => "None"
  | PStr s => s
  | PInt z => pretty z
  end.

(** ** Strings: [str.split()] and [str.join] *)

(** [str.isspace] on one character: the code points 9-13, 28-32, 133 and
    160. *)
Definition is_space (c : ascii) : bool :=
  let n := nat_of_ascii c in
  ((9 <=? n) && (n <=? 13) || (28 <=? n) && (n <=? 32)
   || (n =? 133) || (n =? 160))%nat.

(** [split_from cur s]: the words of [s], where [cur] holds the characters
    of the word being scanned. *)
Fixpoint split_from (cur : string) (s : string) : list string :=
  match s with
  | EmptyString => if decide (cur = "") then [] else [cur]
  | String c s' =>
      if is_space c
      then if decide (cur = "") then split_from "" s'
           else cur :: split_from "" s'
      else split_from (cur ++ String c "") s'
  end.

(** [text.split()]: the maximal runs of non-whitespace characters. *)
Definition split (text : string) : list string := split_from "" text.

(** [sep.join(l)] *)
Fixpoint join (sep : string) (l : list string) : string :=
  match l with
  | [] => ""
  | [w] => w
  | w :: l' => w ++ sep ++ join sep l'
  end.

(** ** Slices and ranges *)

(** The bound of a slice, as Python normalises it against the length [n]:
    a negative bound counts from the end, and the result is clipped to
    [0..n]. *)
Definition slice_bound (n i : Z) : Z :=
  if i <? 0 then Z.max (i + n) 0 else Z.min i n.

(** [l[start:stop]] *)
Definition slice {A} (l : list A) (start stop : Z) : list A :=
  let n := Z.of_nat (length l) in
  let a := slice_bound n start in
  let b := slice_bound n stop in
  take (Z.to_nat (b - a)) (drop (Z.to_nat a) l).

(** [len(range(start, stop, step))] for a non-zero step. *)
Definition range_len (start stop step : Z) : Z :=
  if 0 <? step
  then if start <? stop then (stop - start - 1) / step + 1 else 0
  else if stop <? start then (start - stop - 1) / (- step) + 1 else 0.

(** [range(start, stop, step)]; a zero step raises [ValueError]. *)
Definition range (start stop step : Z) : res (list Z) :=
  if step =? 0 then Raise ValueError
  else Ok (map (fun k => start + Z.of_nat k * step)
               (seq 0 (Z.to_nat (range_len start stop step)))).

(** ** Chunking utility *)

(** The body of the loop of [chunk_text]: one chunk appended per start
    index. *)
Definition chunk_step (words : list string) (max_words : Z)
    (chunks : list string) (i : Z) : list string :=
  let chunk := join " " (slice words i (i + max_words)) in
  chunks ++ [chunk].

(** [chunk_text(text, max_words, overlap)].  The text is whatever object
    the caller passes; only a [str] has a [split] method. *)
Definition chunk_text (text : pyval) (max_words overlap : Z)
    : res (list string) :=
  match text with
  | PStr s =>
      let words := split s in
      let chunks := [] in
      let step := max_words - overlap in
      match range 0 (Z.of_nat (length words)) step with
      | Ok starts => Ok (fold_left (chunk_step words max_words) starts chunks)
      | Raise e => Raise e
      end
  | _ => Raise AttributeError
  end.

(** ** Mock embedding model *)

Section Embedding.
(** [hash] on strings: fixed within one run of the interpreter. *)
Variable hash : string -> Z.

Definition float_of_int (z : Z) : float :=
  PrimFloat.of_uint63 (Uint63.of_Z z).

(** [MockEmbeddingModel.embed] *)
Definition embed (text : string) : list float :=
  let seed := Z.abs (hash text) mod 1000 in
  map (fun i => float_of_int ((seed * Z.of_nat i) mod 97)) (seq 0 128).
End Embedding.

(** ** Mock vector database and the ledgers *)

(** The metadata mapping attached to a stored vector. *)
Module Metadata.
Record t : Type := Make {
  product_id : pyval;
  chunk_id : string;
  title : pyval;
  category : pyval;
  price : pyval;
}.
End Metadata.

(** A value of [MockVectorDB.store]. *)
Module Entry.
Record t : Type := Make {
  vector : list float;
  metadata : Metadata.t;
}.
End Entry.

(** A row of [embeddings_table]. *)
Module EmbeddingRecord.
Record t : Type := Make {
  product_id : pyval;
  chunk_id : string;
  text_chunk : string;
  embedding_model : string;
  vector_id : string;
}.
End EmbeddingRecord.

(** The pipeline object with what it owns ([vector_db.store],
    [products_table], [embeddings_table]), together with the two pieces of
    the process it touches: how many identifiers [uuid.uuid4] has handed
    out, and the lines printed so far. *)
Record state : Type := State {
  products_table : gmap pyval (gmap string pyval);
  embeddings_table : list EmbeddingRecord.t;
  store : gmap string Entry.t;
  uuids : nat;
  stdout : list string;
}.

(** [ProductIngestionPipeline()] in a process that has drawn [n]
    identifiers and printed [out]. *)
Definition init (n : nat) (out : list string) : state :=
  {| products_table := ∅; embeddings_table := []; store := ∅;
     uuids := n; stdout := out |}.

(** ** The state and exception monad *)

Definition M (A : Type) : Type := state -> res A * state.

#[global] Instance M_ret : MRet M := fun A a st => (Ok a, st).

#[global] Instance M_bind : MBind M := fun A B f m st =>
  match m st with
  | (Ok a, st') => f a st'
  | (Raise e, st') => (Raise e, st')
  end.

Definition lift_res {A} (r : res A) : M A := fun st => (r, st).

Definition modify (f : state -> state) : M unit := fun st => (Ok tt, f st).

(** [for x in l: body(x)] *)
Fixpoint for_each {A} (l : list A) (body : A -> M unit) : M unit :=
  match l with
  | [] => mret tt
  | x :: l' => body x ;; for_each l' body
  end.

(** [enumerate(l, start)] *)
Fixpoint enumerate_from {A} (start : nat) (l : list A) : list (nat * A) :=
  match l with
  | [] => []
  | x :: l' => (start, x) :: enumerate_from (S start) l'
  end.

Definition enumerate {A} (l : list A) : list (nat * A) := enumerate_from 0 l.

(** [d[k]] *)
Definition getitem (d : gmap string pyval) (k : string) : M pyval :=
  match d !! k with
  | Some v => mret v
  | None => lift_res (Raise (KeyError k))
  end.

(** [d.get(k, dflt)] *)
Definition dict_get (d : gmap string pyval) (k : string) (dflt : pyval)
    : pyval :=
  default dflt (d !! k).

(** [print(line)] *)
Definition print (line : string) : M unit :=
  modify (fun st =>
    {| products_table := products_table st;
       embeddings_table := embeddings_table st;
       store := store st; uuids := uuids st;
       stdout := stdout st ++ [line] |}).

Section Pipeline.
(** [hash] on strings, and the identifiers that [str(uuid.uuid4())]
    delivers, in the order of the calls. *)
Variable hash : string -> Z.
Variable uuid4 : nat -> string.

(** [str(uuid.uuid4())] *)
Definition uuid4_str : M string := fun st =>
  (Ok (uuid4 (uuids st)),
   {| products_table := products_table st;
      embeddings_table := embeddings_table st;
      store := store st; uuids := S (uuids st);
      stdout := stdout st |}).

(** [MockVectorDB.upsert] *)
Definition upsert (vector : list float) (metadata : Metadata.t)
    : M string :=
  vector_id ← uuid4_str;
  modify (fun st =>
    {| products_table := products_table st;
       embeddings_table := embeddings_table st;
       store := <[vector_id := Entry.Make vector metadata]> (store st);
       uuids := uuids st; stdout := stdout st |}) ;;
  mret vector_id.

(** [self.products_table[product_id] = product] *)
Definition set_product (product_id : pyval) (product : gmap string pyval)
    : M unit :=
  modify (fun st =>
    {| products_table := <[product_id := product]> (products_table st);
       embeddings_table := embeddings_table st;
       store := store st; uuids := uuids st; stdout := stdout st |}).

(** [self.embeddings_table.append(row)] *)
Definition append_embedding (row : EmbeddingRecord.t) : M unit :=
  modify (fun st =>
    {| products_table := products_table st;
       embeddings_table := embeddings_table st ++ [row];
       store := store st; uuids := uuids st; stdout := stdout st |}).

(** The body of the loop of [ingest_product]. *)
Definition ingest_chunk (product : gmap string pyval) (product_id : pyval)
    (ic : nat * string) : M unit :=
  let '(idx, chunk) := ic in
  let vector := embed hash chunk in
  title ← getitem product "title";
  let metadata :=
    {| Metadata.product_id := product_id;
       Metadata.chunk_id := py_str product_id +:+ "_" +:+ pretty idx;
       Metadata.title := title;
       Metadata.category := dict_get product "category" (PStr "unknown");
       Metadata.price := dict_get product "price" PNone |} in
  vector_id ← upsert vector metadata;
  append_embedding
    {| EmbeddingRecord.product_id := product_id;
       EmbeddingRecord.chunk_id := Metadata.chunk_id metadata;
       EmbeddingRecord.text_chunk := chunk;
       EmbeddingRecord.embedding_model := "mock";
       EmbeddingRecord.vector_id := vector_id |}.

(** [ProductIngestionPipeline.ingest_product].  The default of
    [product.get] is an argument, so the identifier is drawn whether or
    not the product has an [id].  The function ends without a [return]:
    its value is [None]. *)
Definition ingest_product (product : gmap string pyval) : M pyval :=
  fresh ← uuid4_str;
  let product_id := dict_get product "id" (PStr fresh) in
  set_product product_id product ;;
  description ← getitem product "description";
  chunks ← lift_res (chunk_text description 100 25);
  for_each (enumerate chunks) (ingest_chunk product product_id) ;;
  print ("Ingested product: " +:+ py_str product_id +:+ " with "
         +:+ pretty (length chunks) +:+ " chunks") ;;
  mret PNone.
End Pipeline.

(** ** Notions used to state the properties *)

(** [no_space s]: no character of [s] is whitespace. *)
Fixpoint no_space (s : string) : bool :=
  match s with
  | EmptyString => true
  | String c s' => negb (is_space c) && no_space s'
  end.

(** [only_space s]: every character of [s] is whitespace. *)
Fixpoint only_space (s : string) : bool :=
  match s with
  | EmptyString => true
  | String c s' => is_space c && only_space s'
  end.

(** What [split] delivers: non-empty strings free of whitespace. *)
Definition word (w : string) : Prop := w <> "" /\ no_space w = true.

(** The last [n] elements of a list (the whole list when it is shorter). *)
Definition lastn {A} (n : nat) (l : list A) : list A :=
  drop (length l - n) l.

(** [ceil(a / b)] for a positive [b]. *)
Definition ceil_div (a b : Z) : Z := (a + b - 1) / b.

(** The chunk that starts at word index [i]. *)
Definition chunk_at (words : list string) (max_words : Z) (i : Z) : string :=
  join " " (slice words i (i + max_words)).

(** The start indices [range(0, W, step)] visits, for a non-zero step. *)
Definition starts (W step : Z) : list Z :=
  map (fun k => 0 + Z.of_nat k * step) (seq 0 (Z.to_nat (range_len 0 W step))).

(** The chunk count as the specification's testable property 1 words it:
    [ceil(max(W - o, 0) / (m - o))] for [W > 0], and [0] for [W = 0]. *)
Definition claimed_chunk_count (W m o : Z) : Z :=
  if W =? 0 then 0 else ceil_div (Z.max (W - o) 0) (m - o).

(** The overlap property as the specification's testable property 2 words
    it, for the chunks at positions [i] and [i + 1]: unless chunk [i + 1]
    is the final chunk and has fewer than [o] words, the last [o] words of
    chunk [i] are the first [o] words of chunk [i + 1]. *)
Definition claimed_overlap (chunks : list string) (o i : nat) : Prop :=
  forall ci cj,
    chunks !! i = Some ci -> chunks !! S i = Some cj ->
    ~ (S (S i) = length chunks /\ (length (split cj) < o)%nat) ->
    lastn o (split ci) = take o (split cj).

(** ** Notions used to state the properties of the pipeline *)

(** The result the specification's contract of [ingest_product] names. *)
Module IngestionResult.
Record t : Type := Make {
  product_id : pyval;
  chunk_count : nat;
}.
End IngestionResult.

(** A sample environment to run the pipeline in: a hash, and a sequence of
    identifiers without repetition. *)
Definition sample_hash (s : string) : Z := Z.of_nat (String.length s).
Definition sample_uuid4 (n : nat) : string := "uuid-" +:+ pretty n.

Section PipelineNotions.
Variable hash : string -> Z.
Variable uuid4 : nat -> string.

(** Every key of the store is an identifier that was drawn earlier. *)
Definition store_drawn (st : state) : Prop :=
  forall k, is_Some (store st !! k) ->
    exists n, (n < uuids st)%nat /\ k = uuid4 n.

(** The state once lines 62 and 63 have run. *)
Definition recorded (product : gmap string pyval) (st : state) : state :=
  {| products_table :=
       <[dict_get product "id" (PStr (uuid4 (uuids st))) := product]>
         (products_table st);
     embeddings_table := embeddings_table st;
     store := store st; uuids := S (uuids st); stdout := stdout st |}.

(** The metadata and the ledger row that one turn of the loop builds. *)
Definition metadata_of (product : gmap string pyval) (product_id : pyval)
    (title : pyval) (idx : nat) : Metadata.t :=
  {| Metadata.product_id := product_id;
     Metadata.chunk_id := py_str product_id +:+ "_" +:+ pretty idx;
     Metadata.title := title;
     Metadata.category := dict_get product "category" (PStr "unknown");
     Metadata.price := dict_get product "price" PNone |}.

Definition record_of (product_id : pyval) (idx : nat) (chunk : string)
    (vector_id : string) : EmbeddingRecord.t :=
  {| EmbeddingRecord.product_id := product_id;
     EmbeddingRecord.chunk_id := py_str product_id +:+ "_" +:+ pretty idx;
     EmbeddingRecord.text_chunk := chunk;
     EmbeddingRecord.embedding_model := "mock";
     EmbeddingRecord.vector_id := vector_id |}.

(** The state one turn of the loop leaves, when the product has a
    title. *)
Definition ingested_chunk (product : gmap string pyval) (product_id : pyval)
    (title : pyval) (idx : nat) (chunk : string) (st : state) : state :=
  {| products_table := products_table st;
     embeddings_table :=
       embeddings_table st
       ++ [record_of product_id idx chunk (uuid4 (uuids st))];
     store :=
       <[uuid4 (uuids st) :=
           Entry.Make (embed hash chunk)
             (metadata_of product product_id title idx)]> (store st);
     uuids := S (uuids st); stdout := stdout st |}.

(** The state the whole loop leaves, for the chunks numbered from
    [idx]. *)
Fixpoint ingested (product : gmap string pyval) (product_id : pyval)
    (title : pyval) (idx : nat) (chunks : list string) (st : state)
    : state :=
  match chunks with
  | [] => st
  | chunk :: chunks' =>
      ingested product product_id title (S idx) chunks'
        (ingested_chunk product product_id title idx chunk st)
  end.

(** The ledger rows the loop appends, for the chunks numbered from [idx]
    and the identifiers numbered from [n]. *)
Fixpoint records_of (product_id : pyval) (idx n : nat)
    (chunks : list string) : list EmbeddingRecord.t :=
  match chunks with
  | [] => []
  | chunk :: chunks' =>
      record_of product_id idx chunk (uuid4 n)
      :: records_of product_id (S idx) (S n) chunks'
  end.

(** The line printed at the end of a call. *)
Definition ingested_line (product_id : pyval) (chunks : list string)
    : string :=
  "Ingested product: " +:+ py_str product_id +:+ " with "
  +:+ pretty (length chunks) +:+ " chunks".

Definition printed (line : string) (st : state) : state :=
  {| products_table := products_table st;
     embeddings_table := embeddings_table st;
     store := store st; uuids := uuids st;
     stdout := stdout st ++ [line] |}.
End PipelineNotions.

(** ** Sample products *)

(** The product of the script's example run. *)
Definition sample_product : gmap string pyval :=
  {[ "id" := PStr "P123";
     "title" := PStr "Noise Cancelling Headphones";
     "description" :=
       PStr ("High quality wireless headphones with active noise "
             +:+ "cancellation. Long battery life, comfortable design, "
             +:+ "deep bass, and clear sound for travel and work.");
     "category" := PStr "electronics";
     "price" := PInt 2999 ]}.

(** A product without a description. *)
Definition no_description : gmap string pyval :=
  {[ "id" := PStr "P1"; "title" := PStr "X" ]}.

(** Products whose description has no word. *)
Definition blank (id : string) : gmap string pyval :=
  {[ "id" := PStr id; "title" := PStr "X"; "description" := PStr "  " ]}.

(** Products whose id is the empty string, and null. *)
Definition empty_id : gmap string pyval :=
  {[ "id" := PStr ""; "title" := PStr "X"; "description" := PStr "a b" ]}.

Definition null_id : gmap string pyval :=
  {[ "id" := PNone; "title" := PStr "X"; "description" := PStr "a b" ]}.

(** What the contract of [ingest_product] in the specification says of
    the value [v] a call returns: read as an IngestionResult, it holds the
    resolved product_id and the count of chunks processed. *)
Definition claimed_result (read : pyval -> option IngestionResult.t)
    (product : gmap string pyval) (product_id v : pyval) : Prop :=
  exists description chunks,
    product !! "description" = Some description /\
    chunk_text description 100 25 = Ok chunks /\
    read v = Some (IngestionResult.Make product_id (length chunks)).

(** ** Notions used to state further properties *)

(** The seed [embed] derives from a text. *)
Definition seed (hash : string -> Z) (text : string) : Z :=
  Z.abs (hash text) mod 1000.

(** The integer below 97 whose float is [x], if there is one. *)
Definition int_of_float (x : float) : option Z :=
  find (fun k => PrimFloat.eqb (float_of_int k) x) (map Z.of_nat (seq 0 97)).

(** The rows that [embeddings_table] holds in [st'] beyond those of
    [st]. *)
Definition new_rows (st st' : state) : list EmbeddingRecord.t :=
  drop (length (embeddings_table st)) (embeddings_table st').

(** A product with a description and no title. *)
Definition untitled : gmap string pyval :=
  {[ "id" := PStr "P2"; "description" := PStr "a b" ]}.

(** A product without an id. *)
Definition anonymous : gmap string pyval :=
  {[ "title" := PStr "X"; "description" := PStr "a b" ]}.

(** The state the script's call leaves, in the sample environment. *)
Definition sample_state : state :=
  (ingest_product sample_hash sample_uuid4 sample_product (init 0 [])).2.

Section PipelineRuns.
Variable hash : string -> Z.
Variable uuid4 : nat -> string.

(** The states a pipeline goes through: [ProductIngestionPipeline()], then
    calls of [ingest_product], whatever their outcome. *)
Inductive reachable : state -> Prop :=
  | reachable_init n out : reachable (init n out)
  | reachable_ingest product st :
      reachable st -> reachable (ingest_product hash uuid4 product st).2.

(** The rows of the ledger and the entries of the store are linked one to
    one: the rows carry pairwise distinct vector_ids, these are the keys
    of the store, and the entry a row names holds the embedding of the
    row's chunk, with the row's chunk_id and product_id in its
    metadata. *)
Definition linked (st : state) : Prop :=
  NoDup (EmbeddingRecord.vector_id <$> embeddings_table st) /\
  dom (store st)
  = list_to_set (EmbeddingRecord.vector_id <$> embeddings_table st) /\
  Forall (fun r =>
    exists entry,
      store st !! EmbeddingRecord.vector_id r = Some entry /\
      Entry.vector entry = embed hash (EmbeddingRecord.text_chunk r) /\
      Metadata.chunk_id (Entry.metadata entry)
      = EmbeddingRecord.chunk_id r /\
      Metadata.product_id (Entry.metadata entry)
      = EmbeddingRecord.product_id r)
    (embeddings_table st).
End PipelineRuns.

(** * Properties of the chunker *)

Example chunk_text_ex1 :
  chunk_text (PStr "a b  c d e") 3 1 = Ok ["a b c"; "c d e"; "e"].
Proof. reflexivity. Qed.

Example chunk_text_ex2 : chunk_text (PStr " a ") 2 1 = Ok ["a"].
Proof. reflexivity. Qed.

Example chunk_text_ex3 : chunk_text (PStr "a b c") 0 (-1) = Ok [""; ""; ""].
Proof. reflexivity. Qed.

Example chunk_text_ex4 : chunk_text (PStr "a b c d") (-1) (-3) = Ok ["a b c"; ""].
Proof. reflexivity. Qed.


(** ** The loop as a map over the start indices *)

Lemma fold_left_chunk_step words max_words starts chunks :
  fold_left (chunk_step words max_words) starts chunks
  = (chunks ++ map (chunk_at words max_words) starts)%list.
Proof.
  revert chunks. induction starts as [|i starts IH]; intros chunks; simpl.
  - by rewrite app_nil_r.
  - rewrite IH. unfold chunk_step, chunk_at. by rewrite <- app_assoc.
Qed.

Lemma chunk_text_eq text max_words overlap :
  max_words - overlap <> 0 ->
  chunk_text (PStr text) max_words overlap
  = Ok (map (chunk_at (split text) max_words)
            (starts (Z.of_nat (length (split text))) (max_words - overlap))).
Proof.
  intros Hstep. unfold chunk_text, range.
  destruct (Z.eqb_spec (max_words - overlap) 0) as [|_]; [done|].
  by rewrite fold_left_chunk_step.
Qed.

Lemma chunk_text_zero_step text max_words :
  chunk_text (PStr text) max_words max_words = Raise ValueError.
Proof. unfold chunk_text, range. by rewrite Z.sub_diag. Qed.

Lemma range_len_pos W step :
  0 <= W -> 0 < step -> range_len 0 W step = ceil_div W step.
Proof.
  intros HW Hstep. unfold range_len, ceil_div.
  destruct (Z.ltb_spec 0 step); [|lia].
  destruct (Z.ltb_spec 0 W).
  - replace (W + step - 1) with (W - 0 - 1 + 1 * step) by lia.
    rewrite Z.div_add by lia. lia.
  - assert (W = 0) as -> by lia. simpl.
    symmetry. apply Z.div_small. lia.
Qed.

Lemma range_len_neg W step : 0 <= W -> step < 0 -> range_len 0 W step = 0.
Proof.
  intros HW Hstep. unfold range_len.
  destruct (Z.ltb_spec 0 step); [lia|].
  destruct (Z.ltb_spec W 0); [lia|done].
Qed.

Lemma ceil_div_nonneg a b : 0 <= a -> 0 < b -> 0 <= ceil_div a b.
Proof. intros. unfold ceil_div. apply Z.div_pos; lia. Qed.

Lemma length_starts W step :
  0 <= W -> 0 < step -> Z.of_nat (length (starts W step)) = ceil_div W step.
Proof.
  intros HW Hstep. unfold starts.
  rewrite length_map, length_seq, range_len_pos by done.
  apply Z2Nat.id, ceil_div_nonneg; done.
Qed.

Lemma lookup_starts W step (i : nat) :
  0 <= W -> 0 < step ->
  starts W step !! i
  = if decide (Z.of_nat i < ceil_div W step) then Some (Z.of_nat i * step)
    else None.
Proof.
  intros HW Hstep. unfold starts.
  rewrite list_lookup_fmap, range_len_pos by done.
  pose proof (ceil_div_nonneg W step HW Hstep).
  case_decide.
  - rewrite lookup_seq_lt by lia. done.
  - rewrite lookup_seq_ge by lia. done.
Qed.

(** ** Words: [split] undoes [join] *)

Lemma string_app_nil_l (s : string) : ("" ++ s)%string = s.
Proof. reflexivity. Qed.

Lemma string_app_cons c (s1 s2 : string) :
  (String c s1 ++ s2)%string = String c (s1 ++ s2).
Proof. reflexivity. Qed.

Lemma string_app_nil_r (s : string) : (s ++ "")%string = s.
Proof.
  induction s as [|c s IH]; [done|]. by rewrite string_app_cons, IH.
Qed.

Lemma string_app_assoc (s1 s2 s3 : string) :
  ((s1 ++ s2) ++ s3)%string = (s1 ++ (s2 ++ s3))%string.
Proof.
  induction s1 as [|c s1 IH]; [done|]. by rewrite !string_app_cons, IH.
Qed.

Lemma no_space_app s1 s2 :
  no_space (s1 ++ s2) = no_space s1 && no_space s2.
Proof.
  induction s1 as [|c s1 IH]; [done|].
  rewrite string_app_cons. simpl. by rewrite IH, andb_assoc.
Qed.

Lemma split_from_nil cur : cur <> "" -> split_from cur "" = [cur].
Proof. intros Hcur. simpl. by destruct (decide (cur = "")). Qed.

(** Scanning a run of non-whitespace characters extends the current
    word. *)
Lemma split_from_no_space w cur s :
  no_space w = true ->
  split_from cur (w ++ s) = split_from (cur ++ w) s.
Proof.
  revert cur. induction w as [|c w IH]; intros cur Hw.
  - by rewrite string_app_nil_l, string_app_nil_r.
  - simpl in Hw. apply andb_prop in Hw as [Hc Hw].
    apply negb_true_iff in Hc.
    rewrite string_app_cons. simpl. rewrite Hc, IH by done.
    by rewrite string_app_assoc.
Qed.

(** A single space ends the current word. *)
Lemma split_from_space cur s :
  cur <> "" -> split_from cur (" " ++ s) = cur :: split_from "" s.
Proof.
  intros Hcur. rewrite string_app_cons, string_app_nil_l. simpl.
  by destruct (decide (cur = "")).
Qed.

Lemma split_join ws : Forall word ws -> split (join " " ws) = ws.
Proof.
  unfold split. induction 1 as [|w ws [Hne Hw] Hws IH]; [done|].
  destruct ws as [|w' ws].
  - simpl. rewrite <- (string_app_nil_r w) at 1.
    rewrite split_from_no_space, string_app_nil_l by done.
    by apply split_from_nil.
  - change (join " " (w :: w' :: ws))
      with (w ++ " " ++ join " " (w' :: ws))%string.
    rewrite split_from_no_space, string_app_nil_l by done.
    rewrite split_from_space by done. by rewrite IH.
Qed.

Lemma split_from_words cur s :
  no_space cur = true -> Forall word (split_from cur s).
Proof.
  revert cur. induction s as [|c s IH]; intros cur Hcur; simpl.
  - destruct (decide (cur = "")); repeat constructor; done.
  - destruct (is_space c) eqn:Hc.
    + destruct (decide (cur = "")); [by apply IH|].
      constructor; [done|by apply IH].
    + apply IH. rewrite no_space_app, Hcur. simpl. by rewrite Hc.
Qed.

Lemma split_words text : Forall word (split text).
Proof. by apply split_from_words. Qed.

(** A text of whitespace only has no words. *)
Lemma split_only_space text : only_space text = true -> split text = [].
Proof.
  unfold split. induction text as [|c s IH]; simpl; [done|].
  intros [Hc Hs]%andb_prop. rewrite Hc. simpl. by apply IH.
Qed.

(** ** Slices that start inside the list *)

Lemma slice_take_drop {A} (l : list A) (i n : Z) :
  0 <= i -> 0 <= n ->
  slice l i (i + n) = take (Z.to_nat n) (drop (Z.to_nat i) l).
Proof.
  intros Hi Hn. unfold slice, slice_bound.
  destruct (Z.ltb_spec i 0); [lia|].
  destruct (Z.ltb_spec (i + n) 0); [lia|].
  assert (drop (Z.to_nat (Z.min i (Z.of_nat (length l)))) l
          = drop (Z.to_nat i) l) as ->.
  { destruct (Z_le_gt_dec i (Z.of_nat (length l))).
    - f_equal. lia.
    - by rewrite !drop_ge by lia. }
  destruct (Z_le_gt_dec (i + n) (Z.of_nat (length l))).
  - f_equal. lia.
  - rewrite !take_ge; [done| |]; rewrite length_drop; lia.
Qed.

Lemma slice_words words (i j : Z) :
  Forall word words -> Forall word (slice words i j).
Proof. intros Hw. unfold slice. by apply Forall_take, Forall_drop. Qed.

Lemma split_chunk_at words max_words i :
  Forall word words ->
  split (chunk_at words max_words i) = slice words i (i + max_words).
Proof. intros Hw. unfold chunk_at. by apply split_join, slice_words. Qed.

(** The chunks of a text, for a positive step. *)
Lemma lookup_chunk_text text max_words overlap chunks (i : nat) :
  0 < max_words - overlap ->
  chunk_text (PStr text) max_words overlap = Ok chunks ->
  chunks !! i
  = if decide (Z.of_nat i
               < ceil_div (Z.of_nat (length (split text))) (max_words - overlap))
    then Some (chunk_at (split text) max_words
                 (Z.of_nat i * (max_words - overlap)))
    else None.
Proof.
  intros Hstep. rewrite chunk_text_eq by lia. intros [= <-].
  rewrite list_lookup_fmap, lookup_starts by lia.
  by case_decide.
Qed.

(** ** Counting the chunks *)

Lemma ceil_div_one W step :
  0 < W -> 0 < step -> ceil_div W step = 1 <-> W <= step.
Proof.
  intros HW Hstep. unfold ceil_div. split.
  - intros Hq. destruct (Z_le_gt_dec W step) as [|Hgt]; [done|].
    assert (2 <= (W + step - 1) / step); [|lia].
    apply Z.div_le_lower_bound; lia.
  - intros Hle. symmetry. apply (Z.div_unique _ _ _ (W - 1)); lia.
Qed.

Lemma ceil_div_zero step : 0 < step -> ceil_div 0 step = 0.
Proof. intros Hstep. unfold ceil_div. apply Z.div_small. lia. Qed.

(** C1 (amended): for a text of W whitespace-delimited words and
    parameters max_words = m > 0, overlap = o with 0 <= o < m, the chunker
    returns exactly ceil(W / (m - o)) chunks; that is no chunk when
    W = 0. *)
Theorem chunk_text_count text m o :
  0 < m -> 0 <= o < m ->
  exists chunks,
    chunk_text (PStr text) m o = Ok chunks /\
    Z.of_nat (length chunks)
    = ceil_div (Z.of_nat (length (split text))) (m - o) /\
    (length (split text) = 0%nat -> chunks = []).
Proof.
  intros Hm Ho. eexists. split; [apply chunk_text_eq; lia|].
  rewrite length_map, length_starts by lia. split; [done|].
  intros HW. unfold starts.
  by rewrite HW, range_len_pos, ceil_div_zero by lia.
Qed.

Lemma chunk_text_count_witness :
  exists chunks,
    chunk_text (PStr "a b  c d e") 3 1 = Ok chunks /\
    Z.of_nat (length chunks) = ceil_div 5 2 /\
    (5%nat = 0%nat -> chunks = []).
Proof. apply (chunk_text_count "a b  c d e" 3 1); lia. Defined.

(** C1 (as stated) fails: one word with max_words = 2 and overlap = 1
    gives one chunk, where ceil(max(W - o, 0) / (m - o)) is 0. *)
Lemma chunk_text_count_claimed_fails :
  chunk_text (PStr "a") 2 1 = Ok ["a"] /\
  Z.of_nat (length ["a"])
  <> claimed_chunk_count (Z.of_nat (length (split "a"))) 2 1.
Proof. split; [reflexivity|]. vm_compute. discriminate. Qed.

(** The same at the parameters the pipeline uses: 100 words give two
    chunks, the formula gives one. *)
Lemma hundred_words_two_chunks text :
  length (split text) = 100%nat ->
  exists chunks,
    chunk_text (PStr text) 100 25 = Ok chunks /\ length chunks = 2%nat /\
    claimed_chunk_count 100 100 25 = 1.
Proof.
  intros HW. eexists. split; [by apply chunk_text_eq|].
  split; [|reflexivity]. apply Nat2Z.inj.
  rewrite length_map, length_starts, HW by lia. reflexivity.
Qed.

(** ** Invalid parameters *)

(** C2 (amended): the chunker validates nothing.  When overlap >= max_words
    or max_words <= 0, it raises ValueError exactly when
    overlap = max_words (the step of the range is zero); when
    overlap > max_words it raises nothing and returns no chunk; when
    max_words <= 0 and overlap < max_words it raises nothing and returns
    ceil(W / (max_words - overlap)) chunks. *)
Theorem chunk_text_invalid_params text m o :
  m <= o \/ m <= 0 ->
  (o = m /\ chunk_text (PStr text) m o = Raise ValueError) \/
  (m < o /\ chunk_text (PStr text) m o = Ok []) \/
  (o < m <= 0 /\ exists chunks,
     chunk_text (PStr text) m o = Ok chunks /\
     Z.of_nat (length chunks)
     = ceil_div (Z.of_nat (length (split text))) (m - o)).
Proof.
  intros Hinvalid. destruct (Z.lt_trichotomy o m) as [Hlt|[->|Hgt]].
  - right. right. split; [lia|]. eexists. split; [apply chunk_text_eq; lia|].
    by rewrite length_map, length_starts by lia.
  - left. split; [done|]. apply chunk_text_zero_step.
  - right. left. split; [done|]. rewrite chunk_text_eq by lia.
    unfold starts. by rewrite range_len_neg by lia.
Qed.

Lemma chunk_text_invalid_params_witness :
  (2 = 1 /\ chunk_text (PStr "a b c") 1 2 = Raise ValueError) \/
  (1 < 2 /\ chunk_text (PStr "a b c") 1 2 = Ok []) \/
  (2 < 1 <= 0 /\ exists chunks,
     chunk_text (PStr "a b c") 1 2 = Ok chunks /\
     Z.of_nat (length chunks) = ceil_div 3 (1 - 2)).
Proof. apply (chunk_text_invalid_params "a b c" 1 2). left. lia. Defined.

(** C2 (as stated) fails: with overlap = 2 > max_words = 1 nothing is
    raised, and with max_words = 0, overlap = -1 neither. *)
Lemma chunk_text_invalid_params_no_error :
  (forall e, chunk_text (PStr "a b c") 1 2 <> Raise e) /\
  (forall e, chunk_text (PStr "a b c") 0 (-1) <> Raise e).
Proof. split; intros e; vm_compute; discriminate. Qed.

(** ** A text shorter than one window *)

Lemma chunk_at_whole words max_words :
  Z.of_nat (length words) <= max_words ->
  chunk_at words max_words 0 = join " " words.
Proof.
  intros Hlen. unfold chunk_at. rewrite slice_take_drop by lia.
  rewrite drop_0, take_ge by lia. done.
Qed.

Lemma starts_first W step :
  0 < W -> 0 < step ->
  exists rest, starts W step = 0 :: rest /\ (rest = [] <-> W <= step).
Proof.
  intros HW Hstep.
  pose proof (length_starts W step ltac:(lia) Hstep) as Hlen.
  pose proof (lookup_starts W step 0 ltac:(lia) Hstep) as H0.
  pose proof (ceil_div_one W step HW Hstep) as Hone.
  pose proof (ceil_div_nonneg W step ltac:(lia) Hstep) as Hnn.
  destruct (starts W step) as [|i rest]; simpl in *.
  - case_decide; [done|]. exfalso.
    assert (ceil_div W step = 0) as Hz by lia.
    unfold ceil_div in Hz. apply Z.div_small_iff in Hz; lia.
  - exists rest. case_decide; [|lia]. simplify_eq. split; [done|].
    rewrite <- Hone, <- Hlen. destruct rest; simpl; split; intros; try done; lia.
Qed.

(** C4 (amended): for a text whose word count W satisfies
    0 < W < max_words (and 0 <= overlap < max_words), the first chunk is
    the whole text (all W words, in order, joined by single spaces); it is
    the only chunk exactly when W <= max_words - overlap. *)
Theorem chunk_text_short text m o :
  0 <= o < m ->
  0 < Z.of_nat (length (split text)) < m ->
  exists rest,
    chunk_text (PStr text) m o = Ok (join " " (split text) :: rest) /\
    (rest = [] <-> Z.of_nat (length (split text)) <= m - o).
Proof.
  intros Ho HW. rewrite chunk_text_eq by lia.
  destruct (starts_first (Z.of_nat (length (split text))) (m - o))
    as (rest & -> & Hrest); [lia..|].
  exists (map (chunk_at (split text) m) rest). split.
  - simpl. by rewrite chunk_at_whole by lia.
  - rewrite <- Hrest. split; [|by intros ->].
    by destruct rest.
Qed.

Lemma chunk_text_short_witness :
  exists rest,
    chunk_text (PStr "a b") 3 1 = Ok (join " " (split "a b") :: rest) /\
    (rest = [] <-> Z.of_nat (length (split "a b")) <= 3 - 1).
Proof. apply (chunk_text_short "a b" 3 1); simpl; lia. Defined.

(** C4 (as stated) fails: two words with max_words = 3 and overlap = 2 are
    fewer than max_words, and give two chunks. *)
Lemma chunk_text_short_two_chunks :
  (0 < length (split "a b") < 3)%nat /\
  chunk_text (PStr "a b") 3 2 = Ok ["a b"; "b"].
Proof. split; [simpl; lia|reflexivity]. Qed.

(** ** Overlap between consecutive chunks *)

(** The words of the chunk at position [i]: the window of [max_words]
    words that starts at word [i * step], which lies inside the text. *)
Lemma chunk_words text m o chunks (i : nat) c :
  0 <= o < m ->
  chunk_text (PStr text) m o = Ok chunks ->
  chunks !! i = Some c ->
  (i * Z.to_nat (m - o) < length (split text))%nat /\
  split c
  = take (Z.to_nat m) (drop (i * Z.to_nat (m - o)) (split text)).
Proof.
  intros Ho Hchunks Hi.
  assert (0 < m - o) as Hstep by lia.
  rewrite (lookup_chunk_text _ _ _ _ i Hstep Hchunks) in Hi.
  case_decide as Hlt; simplify_eq.
  assert (Z.to_nat (Z.of_nat i * (m - o)) = (i * Z.to_nat (m - o))%nat)
    as Hnat by (rewrite Z2Nat.inj_mul, Nat2Z.id; lia).
  split.
  - unfold ceil_div in Hlt.
    pose proof (Z.mul_div_le
                  (Z.of_nat (length (split text)) + (m - o) - 1) (m - o)
                  Hstep).
    assert (Z.of_nat i * (m - o) < Z.of_nat (length (split text))) by nia.
    lia.
  - rewrite split_chunk_at by apply split_words.
    rewrite slice_take_drop by nia. by rewrite Hnat.
Qed.

(** Two windows of [s + n] elements whose starts are [s] apart share [n]
    elements, when the second window has that many. *)
Lemma take_drop_overlap {A} (l : list A) (a s n : nat) :
  (n <= length (take (s + n) (drop (a + s) l)))%nat ->
  lastn n (take (s + n) (drop a l)) = take n (take (s + n) (drop (a + s) l)).
Proof.
  intros Hlen. unfold lastn.
  rewrite length_take, length_drop in Hlen |- *.
  destruct (decide (n = 0%nat)) as [->|Hn].
  - rewrite Nat.sub_0_r, take_0, drop_ge; [done|].
    rewrite length_take, length_drop. lia.
  - replace ((s + n) `min` (length l - a) - n)%nat with s by lia.
    rewrite take_take, <- take_drop_commute, drop_drop.
    f_equal. lia.
Qed.

(** C8 (amended): for valid parameters m > 0, 0 <= o < m and consecutive
    chunks i and i+1 of the chunker's output where chunk i+1 has at least
    o words (a short chunk need not be the final one), the last o words of
    chunk i are the first o words of chunk i+1. *)
Theorem chunk_overlap text m o chunks (i : nat) ci cj :
  0 < m -> 0 <= o < m ->
  chunk_text (PStr text) m o = Ok chunks ->
  chunks !! i = Some ci -> chunks !! S i = Some cj ->
  (Z.to_nat o <= length (split cj))%nat ->
  lastn (Z.to_nat o) (split ci) = take (Z.to_nat o) (split cj).
Proof.
  intros Hm Ho Hchunks Hi Hj Hlen.
  destruct (chunk_words text m o chunks i ci Ho Hchunks Hi) as [_ ->].
  destruct (chunk_words text m o chunks (S i) cj Ho Hchunks Hj) as [_ Hcj].
  rewrite Hcj in Hlen |- *. clear Hcj.
  rewrite Nat.mul_succ_l in Hlen |- *.
  replace (Z.to_nat m) with (Z.to_nat (m - o) + Z.to_nat o)%nat
    in Hlen |- * by lia.
  by apply take_drop_overlap.
Qed.

Lemma chunk_overlap_witness :
  lastn (Z.to_nat 1) (split "a b c") = take (Z.to_nat 1) (split "c d e").
Proof.
  apply (chunk_overlap "a b  c d e" 3 1 ["a b c"; "c d e"; "e"] 0);
    try reflexivity; simpl; lia.
Defined.

(** C8 (as stated) fails: with max_words = 4 and overlap = 3 the text
    "a b c" gives three chunks; the second is not the final chunk and has
    two words, and the last three words of the first chunk are not the
    first three words of the second. *)
Lemma chunk_overlap_claimed_fails :
  chunk_text (PStr "a b c") 4 3 = Ok ["a b c"; "b c"; "c"] /\
  ~ claimed_overlap ["a b c"; "b c"; "c"] 3 0.
Proof.
  split; [reflexivity|]. intros Hclaim.
  specialize (Hclaim "a b c" "b c" eq_refl eq_refl).
  assert (lastn 3 (split "a b c") = take 3 (split "b c")) as Heq.
  { apply Hclaim. intros [Hfinal _]. discriminate Hfinal. }
  vm_compute in Heq. discriminate Heq.
Qed.

(** When the overlap is at most the step, as with the 100 and 25 of the
    pipeline, a chunk that is not the final one has at least [o] words:
    only the final chunk can be short. *)
Lemma nonfinal_chunk_long text m o chunks (i : nat) c :
  0 <= o -> o <= m - o -> 0 < m ->
  chunk_text (PStr text) m o = Ok chunks ->
  chunks !! i = Some c -> (S i < length chunks)%nat ->
  (Z.to_nat o <= length (split c))%nat.
Proof.
  intros Ho Hsmall Hm Hchunks Hi Hnext.
  destruct (lookup_lt_is_Some_2 chunks (S i) Hnext) as [c' Hi'].
  destruct (chunk_words text m o chunks i c ltac:(lia) Hchunks Hi) as [_ ->].
  destruct (chunk_words text m o chunks (S i) c' ltac:(lia) Hchunks Hi')
    as [Hlt _].
  rewrite Nat.mul_succ_l in Hlt.
  rewrite length_take, length_drop. lia.
Qed.

(** * Properties of the pipeline *)

(** C9: for every input string, [embed] returns a vector of exactly 128
    elements, whatever the hash: the length is the same constant for all
    inputs. *)
Theorem embed_length hash text : length (embed hash text) = 128%nat.
Proof. unfold embed. rewrite length_map, length_seq. reflexivity. Qed.

Section PipelineProperties.
Variable hash : string -> Z.
Variable uuid4 : nat -> string.

Local Abbreviation ingest_product := (ingest_product hash uuid4).
Local Abbreviation ingest_chunk := (ingest_chunk hash uuid4).
Local Abbreviation ingested := (ingested hash uuid4).
Local Abbreviation ingested_chunk := (ingested_chunk hash uuid4).
Local Abbreviation recorded := (recorded uuid4).
Local Abbreviation records_of := (records_of uuid4).
Local Abbreviation store_drawn := (store_drawn uuid4).

(** ** Running the computation *)

Lemma for_each_cons {A} (x : A) l (body : A -> M unit) st :
  for_each (x :: l) body st
  = match body x st with
    | (Ok _, st') => for_each l body st'
    | (Raise e, st') => (Raise e, st')
    end.
Proof. reflexivity. Qed.

Lemma ingest_chunk_title product product_id title idx chunk st :
  product !! "title" = Some title ->
  ingest_chunk product product_id (idx, chunk) st
  = (Ok tt, ingested_chunk product product_id title idx chunk st).
Proof.
  intros Ht. unfold ingest_chunk, getitem, mbind, M_bind. rewrite Ht.
  reflexivity.
Qed.

Lemma ingest_chunk_no_title product product_id idx chunk st :
  product !! "title" = None ->
  ingest_chunk product product_id (idx, chunk) st
  = (Raise (KeyError "title"), st).
Proof.
  intros Ht. unfold ingest_chunk, getitem, mbind, M_bind. rewrite Ht.
  reflexivity.
Qed.

Lemma for_each_ingest_chunk product product_id title idx chunks st :
  product !! "title" = Some title ->
  for_each (enumerate_from idx chunks) (ingest_chunk product product_id) st
  = (Ok tt, ingested product product_id title idx chunks st).
Proof.
  intros Ht. revert idx st.
  induction chunks as [|chunk chunks IH]; intros idx st; [done|].
  cbn [enumerate_from]. rewrite for_each_cons.
  rewrite (ingest_chunk_title _ _ title) by done. apply IH.
Qed.

(** The call, step by step. *)
Lemma ingest_product_run product st :
  ingest_product product st
  = let product_id := dict_get product "id" (PStr (uuid4 (uuids st))) in
    match product !! "description" with
    | None => (Raise (KeyError "description"), recorded product st)
    | Some description =>
        match chunk_text description 100 25 with
        | Raise e => (Raise e, recorded product st)
        | Ok chunks =>
            match for_each (enumerate chunks)
                    (ingest_chunk product product_id)
                    (recorded product st) with
            | (Ok _, st') =>
                (Ok PNone, printed (ingested_line product_id chunks) st')
            | (Raise e, st') => (Raise e, st')
            end
        end
    end.
Proof.
  unfold ingest_product, getitem, mbind, M_bind, uuid4_str, set_product,
    modify, lift_res. simpl.
  destruct (product !! "description") as [description|]; [|done].
  simpl. destruct (chunk_text description 100 25) as [chunks|e]; [|done].
  fold (recorded product st).
  by destruct (for_each _ _ _) as [[[]|e] st'].
Qed.

(** ** What the loop leaves behind *)

Lemma ingested_frame product product_id title idx chunks st :
  products_table (ingested product product_id title idx chunks st)
  = products_table st /\
  stdout (ingested product product_id title idx chunks st) = stdout st /\
  uuids (ingested product product_id title idx chunks st)
  = (uuids st + length chunks)%nat.
Proof.
  revert idx st. induction chunks as [|chunk chunks IH]; intros idx st.
  - simpl. auto with lia.
  - cbn [ingested]. destruct (IH (S idx)
      (ingested_chunk product product_id title idx chunk st))
      as (-> & -> & ->).
    simpl. auto with lia.
Qed.

Lemma ingested_embeddings product product_id title idx chunks st :
  embeddings_table (ingested product product_id title idx chunks st)
  = (embeddings_table st ++ records_of product_id idx (uuids st) chunks)%list.
Proof.
  revert idx st. induction chunks as [|chunk chunks IH]; intros idx st.
  - simpl. by rewrite app_nil_r.
  - cbn [ingested records_of]. rewrite IH. simpl. by rewrite <- app_assoc.
Qed.

Lemma length_records_of product_id idx n chunks :
  length (records_of product_id idx n chunks) = length chunks.
Proof.
  revert idx n. induction chunks as [|chunk chunks IH]; intros idx n;
    simpl; [done|]. by rewrite IH.
Qed.

Lemma lookup_records_of product_id idx n chunks (j : nat) :
  records_of product_id idx n chunks !! j
  = (fun chunk =>
       record_of product_id (idx + j) chunk (uuid4 (n + j))) <$> chunks !! j.
Proof.
  revert idx n j. induction chunks as [|chunk chunks IH]; intros idx n j;
    [done|].
  destruct j as [|j]; simpl.
  - by rewrite !Nat.add_0_r.
  - rewrite IH. by rewrite !Nat.add_succ_r.
Qed.

Lemma vector_ids_records_of product_id idx n chunks :
  EmbeddingRecord.vector_id <$> records_of product_id idx n chunks
  = uuid4 <$> seq n (length chunks).
Proof.
  revert idx n. induction chunks as [|chunk chunks IH]; intros idx n;
    [done|]. simpl. by rewrite IH.
Qed.

Lemma ingested_store_other product product_id title idx chunks st key :
  (forall j, (j < length chunks)%nat -> key <> uuid4 (uuids st + j)) ->
  store (ingested product product_id title idx chunks st) !! key
  = store st !! key.
Proof.
  revert idx st. induction chunks as [|chunk chunks IH]; intros idx st Hkey;
    [done|].
  cbn [ingested]. rewrite IH.
  - simpl. apply lookup_insert_ne. specialize (Hkey 0%nat).
    rewrite Nat.add_0_r in Hkey. intros <-. apply Hkey; simpl; [lia|done].
  - intros j Hj. simpl. rewrite <- Nat.add_succ_r.
    apply Hkey. simpl. lia.
Qed.

Section Unique.
(** [uuid4] never delivers the same identifier twice. *)
Hypothesis uuid4_inj : Inj (=) (=) uuid4.

Lemma ingested_store_new product product_id title idx chunks st j chunk :
  chunks !! j = Some chunk ->
  store (ingested product product_id title idx chunks st)
    !! uuid4 (uuids st + j)
  = Some (Entry.Make (embed hash chunk)
            (metadata_of product product_id title (idx + j))).
Proof.
  revert idx st j. induction chunks as [|c chunks IH]; intros idx st j Hj;
    [done|].
  cbn [ingested]. destruct j as [|j]; simpl in Hj.
  - simplify_eq. rewrite ingested_store_other.
    + rewrite !Nat.add_0_r. simpl. apply lookup_insert_eq.
    + intros j Hj Heq. apply uuid4_inj in Heq. simpl in Heq. lia.
  - rewrite !Nat.add_succ_r, <- !Nat.add_succ_l.
    by apply (IH (S idx) (ingested_chunk product product_id title idx c st)).
Qed.

Lemma store_drawn_fresh st n :
  store_drawn st -> (uuids st <= n)%nat -> store st !! uuid4 n = None.
Proof.
  intros Hdrawn Hn. destruct (store st !! uuid4 n) eqn:Hlook; [|done].
  destruct (Hdrawn (uuid4 n)) as (n' & Hlt & Heq); [by eexists|].
  apply uuid4_inj in Heq. lia.
Qed.

Lemma ingested_chunk_drawn product product_id title idx chunk st :
  store_drawn st ->
  store_drawn (ingested_chunk product product_id title idx chunk st).
Proof.
  intros Hdrawn k. simpl. rewrite lookup_insert.
  case_decide as Hk.
  - intros _. exists (uuids st). split; [lia|done].
  - intros Hsome. destruct (Hdrawn k Hsome) as (n & Hlt & ->).
    exists n. split; [lia|done].
Qed.

Lemma ingested_store_size product product_id title idx chunks st :
  store_drawn st ->
  size (store (ingested product product_id title idx chunks st))
  = (size (store st) + length chunks)%nat /\
  store_drawn (ingested product product_id title idx chunks st).
Proof.
  revert idx st. induction chunks as [|chunk chunks IH];
    intros idx st Hdrawn.
  - simpl. auto with lia.
  - cbn [ingested].
    destruct (IH (S idx)
      (ingested_chunk product product_id title idx chunk st)) as [-> Hd].
    { by apply ingested_chunk_drawn. }
    split; [|done]. simpl.
    rewrite map_size_insert_None by (by apply store_drawn_fresh). lia.
Qed.

Lemma recorded_drawn product st :
  store_drawn st -> store_drawn (recorded product st).
Proof.
  intros Hdrawn k Hsome. destruct (Hdrawn k Hsome) as (n & Hlt & ->).
  exists n. simpl. split; [lia|done].
Qed.

(** The invariant survives a call, whatever its outcome. *)
Lemma ingest_product_drawn product st :
  store_drawn st -> store_drawn (ingest_product product st).2.
Proof.
  intros Hdrawn. pose proof (recorded_drawn product st Hdrawn) as Hrec.
  rewrite ingest_product_run. cbv zeta.
  destruct (product !! "description") as [description|]; [|done].
  destruct (chunk_text description 100 25) as [chunks|e]; [|done].
  destruct chunks as [|chunk chunks]; [done|].
  unfold enumerate. cbn [enumerate_from]. rewrite for_each_cons.
  destruct (product !! "title") as [title|] eqn:Ht.
  - rewrite (ingest_chunk_title _ _ title) by done.
    rewrite (for_each_ingest_chunk _ _ title) by done.
    apply (ingested_store_size product
             (dict_get product "id" (PStr (uuid4 (uuids st)))) title 1 chunks).
    by apply ingested_chunk_drawn.
  - by rewrite ingest_chunk_no_title by done.
Qed.
End Unique.

Lemma init_drawn n out : store_drawn (init n out).
Proof. intros k [e He]. simpl in He. by rewrite lookup_empty in He. Qed.

(** ** The outcomes of a call *)

(** A call that ends normally: the description is there, the chunker
    accepted it, and the title is there unless no chunk was produced. *)
Lemma ingest_product_ok product st v st' :
  ingest_product product st = (Ok v, st') ->
  exists description chunks title,
    product !! "description" = Some description /\
    chunk_text description 100 25 = Ok chunks /\
    (chunks = [] \/ product !! "title" = Some title) /\
    v = PNone /\
    st' = printed
            (ingested_line (dict_get product "id" (PStr (uuid4 (uuids st))))
               chunks)
            (ingested product
               (dict_get product "id" (PStr (uuid4 (uuids st))))
               title 0 chunks (recorded product st)).
Proof.
  rewrite ingest_product_run. cbv zeta.
  destruct (product !! "description") as [description|]; [|done].
  destruct (chunk_text description 100 25) as [chunks|e] eqn:Hc; [|done].
  destruct chunks as [|chunk chunks].
  - simpl. intros [= <- <-]. exists description, [], PNone.
    split_and!; auto.
  - destruct (product !! "title") as [title|] eqn:Ht.
    + unfold enumerate. rewrite (for_each_ingest_chunk _ _ title) by done.
      intros [= <- <-]. exists description, (chunk :: chunks), title.
      split_and!; auto.
    + unfold enumerate. cbn [enumerate_from].
      rewrite for_each_cons, ingest_chunk_no_title by done. done.
Qed.

(** The products ledger and the identifier count after a call, whatever
    its outcome. *)
Lemma ingest_product_products product st :
  products_table (ingest_product product st).2
  = <[dict_get product "id" (PStr (uuid4 (uuids st))) := product]>
      (products_table st) /\
  (uuids st < uuids (ingest_product product st).2)%nat.
Proof.
  rewrite ingest_product_run. cbv zeta.
  destruct (product !! "description") as [description|];
    [|simpl; auto with lia].
  destruct (chunk_text description 100 25) as [chunks|e];
    [|simpl; auto with lia].
  destruct chunks as [|chunk chunks]; [simpl; auto with lia|].
  unfold enumerate. cbn [enumerate_from]. rewrite for_each_cons.
  destruct (product !! "title") as [title|] eqn:Ht.
  - rewrite (ingest_chunk_title _ _ title) by done.
    rewrite (for_each_ingest_chunk _ _ title) by done. simpl.
    destruct (ingested_frame product
      (dict_get product "id" (PStr (uuid4 (uuids st)))) title 1 chunks
      (ingested_chunk product
         (dict_get product "id" (PStr (uuid4 (uuids st)))) title 0 chunk
         (recorded product st))) as (-> & _ & ->).
    simpl. auto with lia.
  - rewrite ingest_chunk_no_title by done. simpl. auto with lia.
Qed.

(** A description without words: the call ends normally after line 63 and
    the print. *)
Lemma ingest_product_blank_run product st description :
  product !! "description" = Some (PStr description) ->
  only_space description = true ->
  chunk_text (PStr description) 100 25 = Ok [] /\
  ingest_product product st
  = (Ok PNone,
     printed
       (ingested_line (dict_get product "id" (PStr (uuid4 (uuids st)))) [])
       (recorded product st)).
Proof.
  intros Hd Hblank.
  assert (chunk_text (PStr description) 100 25 = Ok []) as Hc.
  { rewrite chunk_text_eq by lia. by rewrite split_only_space. }
  split; [done|]. rewrite ingest_product_run. cbv zeta. by rewrite Hd, Hc.
Qed.

(** ** The claims about [ingest_product] *)

(** C3 (amended): for every product record whose description is absent or
    null, ingest_product fails, with KeyError when the field is absent and
    AttributeError when it is null, after the product has been recorded in
    the Products Ledger under the resolved product_id; nothing is written
    to the Embeddings Ledger or the Vector Store by that call. *)
Theorem ingest_product_no_description product st :
  product !! "description" = None \/ product !! "description" = Some PNone ->
  exists e st',
    ingest_product product st = (Raise e, st') /\
    e = match product !! "description" with
        | None => KeyError "description"
        | Some _ => AttributeError
        end /\
    embeddings_table st' = embeddings_table st /\
    store st' = store st /\
    products_table st'
    = <[dict_get product "id" (PStr (uuid4 (uuids st))) := product]>
        (products_table st).
Proof.
  intros Hd. rewrite ingest_product_run. cbv zeta.
  destruct Hd as [-> | ->]; simpl; eauto 10.
Qed.

(** C10: for every product record whose description is present and
    consists only of whitespace (the empty string included),
    ingest_product ends without error, produces zero chunks, appends no
    Embedding Record, creates no Vector Store entry, and stores the
    product in the Products Ledger under the resolved product_id. *)
Theorem ingest_product_blank product st description :
  product !! "description" = Some (PStr description) ->
  only_space description = true ->
  exists v st',
    ingest_product product st = (Ok v, st') /\
    chunk_text (PStr description) 100 25 = Ok [] /\
    embeddings_table st' = embeddings_table st /\
    store st' = store st /\
    products_table st' !! dict_get product "id" (PStr (uuid4 (uuids st)))
    = Some product.
Proof.
  intros Hd Hblank.
  destruct (ingest_product_blank_run product st description Hd Hblank)
    as [Hc ->].
  eexists _, _. split_and!; try done.
  simpl. apply lookup_insert_eq.
Qed.

(** C6 (amended): a successful ingest_product call returns None; the
    resolved product_id and the count of chunks processed are not
    returned, they appear in the line the call prints, "Ingested product:
    <product_id> with <count> chunks". *)
Theorem ingest_product_returns product st v st' :
  ingest_product product st = (Ok v, st') ->
  v = PNone /\
  exists description chunks,
    product !! "description" = Some description /\
    chunk_text description 100 25 = Ok chunks /\
    stdout st'
    = (stdout st
       ++ ["Ingested product: "
           +:+ py_str (dict_get product "id" (PStr (uuid4 (uuids st))))
           +:+ " with " +:+ pretty (length chunks) +:+ " chunks"])%list.
Proof.
  intros (description & chunks & title & Hd & Hc & _ & -> & ->)
    %ingest_product_ok.
  split; [done|]. exists description, chunks. split_and!; try done.
  simpl. by destruct (ingested_frame product
    (dict_get product "id" (PStr (uuid4 (uuids st)))) title 0 chunks
    (recorded product st)) as (_ & -> & _).
Qed.

(** C7 (amended): the resolved product_id is the value of the product's
    id field whenever that field is present, the empty string and null
    included; only when the field is absent is the next identifier of
    uuid4 used, and the identifier count grows, so that identifier is not
    handed out again.  The product is recorded under the resolved
    product_id whatever the outcome of the call. *)
Theorem ingest_product_id product st :
  products_table (ingest_product product st).2
  = <[match product !! "id" with
      | Some v => v
      | None => PStr (uuid4 (uuids st))
      end := product]> (products_table st) /\
  (uuids st < uuids (ingest_product product st).2)%nat.
Proof.
  destruct (ingest_product_products product st) as [-> Hlt].
  split; [|done]. unfold dict_get. by destruct (product !! "id").
Qed.

(** C5: after every successful ingest_product call, provided uuid4 never
    repeats an identifier and the keys of the store were drawn from it,
    the Embedding Records appended by the call are as many as the chunks
    of the description and as many as the Vector Store entries created;
    the records carry pairwise distinct vector_ids, none in the store
    before the call; and the record at position idx holds the chunk at
    position idx, its vector_id names an entry of the store whose
    metadata chunk_id is the record's chunk_id, which is
    "<product_id>_<idx>". *)
Theorem ingest_product_linkage product st v st' :
  Inj (=) (=) uuid4 ->
  store_drawn st ->
  ingest_product product st = (Ok v, st') ->
  exists description chunks records,
    product !! "description" = Some description /\
    chunk_text description 100 25 = Ok chunks /\
    embeddings_table st' = (embeddings_table st ++ records)%list /\
    length records = length chunks /\
    size (store st') = (size (store st) + length chunks)%nat /\
    store st ⊆ store st' /\
    NoDup (EmbeddingRecord.vector_id <$> records) /\
    forall idx r, records !! idx = Some r ->
      chunks !! idx = Some (EmbeddingRecord.text_chunk r) /\
      EmbeddingRecord.chunk_id r
      = py_str (dict_get product "id" (PStr (uuid4 (uuids st))))
        +:+ "_" +:+ pretty idx /\
      store st !! EmbeddingRecord.vector_id r = None /\
      exists entry,
        store st' !! EmbeddingRecord.vector_id r = Some entry /\
        Metadata.chunk_id (Entry.metadata entry)
        = EmbeddingRecord.chunk_id r.
Proof.
  intros Hinj Hdrawn
    (description & chunks & title & Hd & Hc & _ & -> & ->)%ingest_product_ok.
  set (pid := dict_get product "id" (PStr (uuid4 (uuids st)))).
  pose proof (recorded_drawn product st Hdrawn) as Hdrawn'.
  exists description, chunks,
    (records_of pid 0 (uuids (recorded product st)) chunks).
  split_and!; try done.
  - simpl. by rewrite ingested_embeddings.
  - apply length_records_of.
  - simpl. by destruct (ingested_store_size Hinj product pid title 0 chunks
      (recorded product st) Hdrawn') as [-> _].
  - apply map_subseteq_spec. intros k e Hk. simpl.
    rewrite ingested_store_other; [done|].
    intros j _ ->.
    rewrite (store_drawn_fresh Hinj (recorded product st)) in Hk;
      [done|done|lia].
  - rewrite vector_ids_records_of. apply NoDup_fmap_2; [done|].
    apply NoDup_seq.
  - intros idx r. rewrite lookup_records_of.
    destruct (chunks !! idx) as [chunk|] eqn:Hidx; [|done].
    intros [= <-]. simpl. split_and!; try done.
    + apply (store_drawn_fresh Hinj st); [done|lia].
    + pose proof (ingested_store_new Hinj product pid title 0 chunks
                    (recorded product st) idx chunk Hidx) as Hnew.
      simpl in Hnew. eexists. split; [exact Hnew|reflexivity].
Qed.
End PipelineProperties.

(** ** The pipeline in the sample environment *)

Lemma sample_uuid4_inj : Inj (=) (=) sample_uuid4.
Proof.
  intros n m Heq. unfold sample_uuid4 in Heq.
  apply (inj (String.append "uuid-")) in Heq. by apply (inj pretty) in Heq.
Qed.

Lemma ingest_product_no_description_witness :
  exists e st',
    ingest_product sample_hash sample_uuid4 no_description (init 0 [])
    = (Raise e, st') /\
    e = KeyError "description" /\
    embeddings_table st' = [] /\
    store st' = ∅ /\
    products_table st' = <[PStr "P1" := no_description]> ∅.
Proof.
  apply (ingest_product_no_description sample_hash sample_uuid4
           no_description (init 0 [])).
  left. reflexivity.
Defined.

(** C3 (as stated) fails: a product without a description makes the call
    raise, and the call has by then written the product to the Products
    Ledger. *)
Lemma ingest_product_no_description_writes :
  no_description !! "description" = None /\
  (ingest_product sample_hash sample_uuid4 no_description (init 0 [])).1
  = Raise (KeyError "description") /\
  products_table
    (ingest_product sample_hash sample_uuid4 no_description (init 0 [])).2
  <> products_table (init 0 []).
Proof.
  split; [reflexivity|]. split; [reflexivity|].
  destruct (ingest_product_products sample_hash sample_uuid4 no_description
              (init 0 [])) as [-> _].
  intros Heq. apply (f_equal (lookup (PStr "P1"))) in Heq.
  change (dict_get no_description "id" _) with (PStr "P1") in Heq.
  rewrite lookup_insert_eq in Heq. simpl in Heq.
  by rewrite lookup_empty in Heq.
Qed.

Lemma ingest_product_blank_witness :
  exists v st',
    ingest_product sample_hash sample_uuid4 (blank "B1") (init 0 [])
    = (Ok v, st') /\
    chunk_text (PStr "  ") 100 25 = Ok [] /\
    embeddings_table st' = [] /\
    store st' = ∅ /\
    products_table st' !! PStr "B1" = Some (blank "B1").
Proof.
  apply (ingest_product_blank sample_hash sample_uuid4 (blank "B1")
           (init 0 []) "  "); reflexivity.
Defined.

Lemma ingest_product_returns_witness :
  PNone = PNone /\
  exists description chunks,
    sample_product !! "description" = Some description /\
    chunk_text description 100 25 = Ok chunks /\
    stdout
      (ingest_product sample_hash sample_uuid4 sample_product (init 0 [])).2
    = ([] ++ ["Ingested product: " +:+ "P123" +:+ " with "
              +:+ pretty (length chunks) +:+ " chunks"])%list.
Proof.
  apply (ingest_product_returns sample_hash sample_uuid4 sample_product
           (init 0 []) PNone). vm_compute. reflexivity.
Defined.

(** C6 (as stated) fails: two calls with different product ids return the
    same value, None, so no reading of the returned value gives the
    resolved product_id. *)
Lemma ingest_product_result_claimed_fails :
  ~ exists read : pyval -> option IngestionResult.t,
      forall id v st',
        ingest_product sample_hash sample_uuid4 (blank id) (init 0 [])
        = (Ok v, st') ->
        claimed_result read (blank id) (PStr id) v.
Proof.
  intros [read Hread].
  assert (forall id, read PNone = Some (IngestionResult.Make (PStr id) 0))
    as Hnone.
  { intros id.
    destruct (ingest_product_blank_run sample_hash sample_uuid4 (blank id)
                (init 0 []) "  " eq_refl eq_refl) as [Hc Hrun].
    destruct (Hread id _ _ Hrun) as (description & chunks & Hd & Hc' & ->).
    assert (description = PStr "  ") as -> by (vm_compute in Hd; congruence).
    rewrite Hc in Hc'. by injection Hc' as <-. }
  pose proof (Hnone "A") as HA. rewrite (Hnone "B") in HA. discriminate HA.
Qed.

(** C7 (as stated) fails: an id that is the empty string, or null, is the
    resolved product_id; no identifier of uuid4 is used in its place. *)
Lemma ingest_product_id_empty_kept :
  (let st' :=
     (ingest_product sample_hash sample_uuid4 empty_id (init 0 [])).2 in
   products_table st' !! PStr "" = Some empty_id /\
   (forall n, products_table st' !! PStr (sample_uuid4 n) = None) /\
   EmbeddingRecord.product_id <$> embeddings_table st' = [PStr ""]) /\
  (let st' :=
     (ingest_product sample_hash sample_uuid4 null_id (init 0 [])).2 in
   products_table st' !! PNone = Some null_id /\
   (forall n, products_table st' !! PStr (sample_uuid4 n) = None) /\
   EmbeddingRecord.product_id <$> embeddings_table st' = [PNone]).
Proof.
  split; cbv zeta.
  - destruct (ingest_product_products sample_hash sample_uuid4 empty_id
                (init 0 [])) as [-> _].
    change (dict_get empty_id "id" _) with (PStr "").
    split; [apply lookup_insert_eq|]. split; [|by vm_compute].
    intros n. rewrite lookup_insert_ne by done. apply lookup_empty.
  - destruct (ingest_product_products sample_hash sample_uuid4 null_id
                (init 0 [])) as [-> _].
    change (dict_get null_id "id" _) with PNone.
    split; [apply lookup_insert_eq|]. split; [|by vm_compute].
    intros n. rewrite lookup_insert_ne by done. apply lookup_empty.
Qed.

Lemma ingest_product_linkage_witness :
  exists description chunks records,
    sample_product !! "description" = Some description /\
    chunk_text description 100 25 = Ok chunks /\
    embeddings_table
      (ingest_product sample_hash sample_uuid4 sample_product (init 0 [])).2
    = ([] ++ records)%list /\
    length records = length chunks /\
    size (store
      (ingest_product sample_hash sample_uuid4 sample_product (init 0 [])).2)
    = (0 + length chunks)%nat /\
    (∅ : gmap string Entry.t) ⊆ store
      (ingest_product sample_hash sample_uuid4 sample_product (init 0 [])).2
    /\
    NoDup (EmbeddingRecord.vector_id <$> records) /\
    forall idx r, records !! idx = Some r ->
      chunks !! idx = Some (EmbeddingRecord.text_chunk r) /\
      EmbeddingRecord.chunk_id r = "P123" +:+ "_" +:+ pretty idx /\
      (∅ : gmap string Entry.t) !! EmbeddingRecord.vector_id r = None /\
      exists entry,
        store
          (ingest_product sample_hash sample_uuid4 sample_product
             (init 0 [])).2
        !! EmbeddingRecord.vector_id r = Some entry /\
        Metadata.chunk_id (Entry.metadata entry)
        = EmbeddingRecord.chunk_id r.
Proof.
  apply (ingest_product_linkage sample_hash sample_uuid4 sample_product
           (init 0 []) PNone).
  - exact sample_uuid4_inj.
  - exact (init_drawn sample_uuid4 0 []).
  - vm_compute. reflexivity.
Defined.

(** * Further properties of the chunker *)

Lemma chunk_text_elem text m o chunks c :
  chunk_text (PStr text) m o = Ok chunks -> c ∈ chunks ->
  exists i, c = chunk_at (split text) m i.
Proof.
  unfold chunk_text, range.
  destruct (m - o =? 0); [done|]. rewrite fold_left_chunk_step.
  intros [= <-] Hc. simpl in Hc.
  apply list_elem_of_fmap in Hc as (i & -> & _). by exists i.
Qed.

Lemma ceil_div_mul_ge W step : 0 < step -> W <= ceil_div W step * step.
Proof.
  intros Hstep. unfold ceil_div.
  pose proof (Z.mod_pos_bound (W + step - 1) step Hstep).
  pose proof (Z.div_mod (W + step - 1) step ltac:(lia)). nia.
Qed.

(** Consecutive windows of [s] elements put together give the list
    back. *)
Lemma concat_windows {A} (l : list A) (s n : nat) :
  (length l <= n * s)%nat ->
  concat (map (fun k => take s (drop (k * s) l)) (seq 0 n)) = l.
Proof.
  revert l. induction n as [|n IH]; intros l Hlen.
  - destruct l; [done|simpl in Hlen; lia].
  - cbn [seq map concat]. rewrite <- fmap_S_seq.
    change (map ?f (S <$> ?l)) with (f <$> (S <$> l)).
    rewrite <- list_fmap_compose.
    rewrite (list_fmap_ext _ (fun k => take s (drop (k * s) (drop s l)))
               (seq 0 n)).
    + change (?f <$> ?l) with (map f l). rewrite IH.
      * simpl. apply take_drop.
      * rewrite length_drop. lia.
    + intros _ k _. simpl. by rewrite drop_drop.
Qed.

(** The words of the chunks, as windows over the words of the text. *)
Lemma chunk_text_windows text m o chunks :
  0 <= o < m ->
  chunk_text (PStr text) m o = Ok chunks ->
  (length (split text) <= length chunks * Z.to_nat (m - o))%nat /\
  map split chunks
  = map (fun k => take (Z.to_nat m) (drop (k * Z.to_nat (m - o)) (split text)))
        (seq 0 (length chunks)).
Proof.
  intros Ho Hchunks. split.
  - pose proof Hchunks as Heq. rewrite chunk_text_eq in Heq by lia.
    injection Heq as <-. rewrite length_map.
    pose proof (length_starts (Z.of_nat (length (split text))) (m - o)
                  ltac:(lia) ltac:(lia)) as Hlen.
    pose proof (ceil_div_mul_ge (Z.of_nat (length (split text))) (m - o)
                  ltac:(lia)).
    nia.
  - apply list_eq. intros i.
    change (map ?f ?l) with (f <$> l). rewrite !list_lookup_fmap.
    destruct (chunks !! i) as [c|] eqn:Hi.
    + rewrite lookup_seq_lt by (by eapply lookup_lt_Some). simpl.
      by destruct (chunk_words text m o chunks i c Ho Hchunks Hi) as [_ ->].
    + by rewrite lookup_seq_ge by (by apply lookup_ge_None).
Qed.

(** X1: for valid parameters, the chunk at position i holds the window of
    max_words words that starts at word i * (max_words - overlap); it has
    at least one word and at most max_words words. *)
Theorem chunk_text_window text m o chunks (i : nat) c :
  0 <= o < m ->
  chunk_text (PStr text) m o = Ok chunks ->
  chunks !! i = Some c ->
  split c = take (Z.to_nat m) (drop (i * Z.to_nat (m - o)) (split text)) /\
  (1 <= length (split c) <= Z.to_nat m)%nat.
Proof.
  intros Ho Hchunks Hi.
  destruct (chunk_words text m o chunks i c Ho Hchunks Hi) as [Hlt ->].
  split; [done|]. rewrite length_take, length_drop. lia.
Qed.

Lemma chunk_text_window_witness :
  split "c d e" = take (Z.to_nat 3) (drop (1 * Z.to_nat (3 - 1))
                                        (split "a b  c d e")) /\
  (1 <= length (split "c d e") <= Z.to_nat 3)%nat.
Proof.
  apply (chunk_text_window "a b  c d e" 3 1 ["a b c"; "c d e"; "e"] 1);
    [lia|reflexivity|reflexivity].
Defined.

(** X2: for valid parameters, the words of the text are recovered from the
    chunks: the first max_words - overlap words of every chunk, put
    together in order, are the words of the text. *)
Theorem chunk_text_reconstruct text m o chunks :
  0 <= o < m ->
  chunk_text (PStr text) m o = Ok chunks ->
  concat (map (fun c => take (Z.to_nat (m - o)) (split c)) chunks)
  = split text.
Proof.
  intros Ho Hchunks.
  destruct (chunk_text_windows text m o chunks Ho Hchunks) as [Hlen Hwin].
  change (map (fun c => take (Z.to_nat (m - o)) (split c)) chunks)
    with ((take (Z.to_nat (m - o)) ∘ split) <$> chunks).
  rewrite list_fmap_compose.
  change (split <$> chunks) with (map split chunks). rewrite Hwin.
  change (map ?f ?l) with (f <$> l). rewrite <- list_fmap_compose.
  rewrite (list_fmap_ext _
             (fun k => take (Z.to_nat (m - o))
                         (drop (k * Z.to_nat (m - o)) (split text)))).
  - by apply concat_windows.
  - intros _ k _. simpl. rewrite take_take. f_equal. lia.
Qed.

Lemma chunk_text_reconstruct_witness :
  concat (map (fun c => take (Z.to_nat (3 - 1)) (split c))
              ["a b c"; "c d e"; "e"])
  = split "a b  c d e".
Proof.
  apply (chunk_text_reconstruct "a b  c d e" 3 1); [lia|reflexivity].
Defined.

(** X3: whatever the parameters, every chunk returned consists of words
    separated by single spaces: splitting it and joining the words with
    one space gives the chunk back. *)
Theorem chunk_text_chunk_normal text m o chunks c :
  chunk_text (PStr text) m o = Ok chunks -> c ∈ chunks ->
  join " " (split c) = c.
Proof.
  intros Hchunks Hc.
  destruct (chunk_text_elem text m o chunks c Hchunks Hc) as [i ->].
  by rewrite split_chunk_at by apply split_words.
Qed.

Lemma chunk_text_chunk_normal_witness :
  join " " (split "c d e") = "c d e".
Proof.
  apply (chunk_text_chunk_normal "a b  c d e" 3 1 ["a b c"; "c d e"; "e"]);
    [reflexivity|]. apply list_elem_of_lookup. by exists 1%nat.
Defined.

(** X4: the chunker sees the text through its words only: the text whose
    whitespace runs are replaced by single spaces gives the same result,
    for all parameters. *)
Theorem chunk_text_normalised text m o :
  chunk_text (PStr (join " " (split text))) m o
  = chunk_text (PStr text) m o.
Proof. unfold chunk_text. by rewrite split_join by apply split_words. Qed.

(** X5: for valid parameters, the first chunk starts the text and the last
    chunk ends it: the words of the first chunk are a prefix of the words
    of the text, those of the last chunk a suffix. *)
Theorem chunk_text_ends text m o chunks :
  0 <= o < m ->
  chunk_text (PStr text) m o = Ok chunks ->
  (forall c, head chunks = Some c -> split c `prefix_of` split text) /\
  (forall c, last chunks = Some c -> split c `suffix_of` split text).
Proof.
  intros Ho Hchunks. split; intros c Hc.
  - rewrite head_lookup in Hc.
    destruct (chunk_words text m o chunks 0 c Ho Hchunks Hc) as [_ ->].
    simpl. apply prefix_take.
  - rewrite last_lookup in Hc.
    destruct (chunk_words text m o chunks _ c Ho Hchunks Hc) as [_ ->].
    destruct (chunk_text_windows text m o chunks Ho Hchunks) as [Hlen _].
    pose proof (lookup_lt_Some _ _ _ Hc) as Hlt.
    rewrite take_ge; [apply suffix_drop|].
    rewrite length_drop. nia.
Qed.

Lemma chunk_text_ends_witness :
  (forall c, head ["a b c"; "c d e"; "e"] = Some c ->
     split c `prefix_of` split "a b  c d e") /\
  (forall c, last ["a b c"; "c d e"; "e"] = Some c ->
     split c `suffix_of` split "a b  c d e").
Proof.
  apply (chunk_text_ends "a b  c d e" 3 1); [lia|reflexivity].
Defined.

(** * Further properties of the embedding model *)

Lemma int_of_float_of_int k :
  0 <= k < 97 -> int_of_float (float_of_int k) = Some k.
Proof.
  intros Hk.
  assert (forallb
            (fun k => match int_of_float (float_of_int k) with
                      | Some j => j =? k
                      | None => false
                      end)
            (map Z.of_nat (seq 0 97)) = true) as Hall
    by (vm_compute; reflexivity).
  rewrite forallb_forall in Hall. specialize (Hall k).
  destruct (int_of_float (float_of_int k)) as [j|].
  - f_equal. apply Z.eqb_eq, Hall.
    apply in_map_iff. exists (Z.to_nat k). split; [lia|].
    apply in_seq. lia.
  - discriminate Hall.
    apply in_map_iff. exists (Z.to_nat k). split; [lia|].
    apply in_seq. lia.
Qed.

Lemma float_of_int_inj a b :
  0 <= a < 97 -> 0 <= b < 97 -> float_of_int a = float_of_int b -> a = b.
Proof.
  intros Ha Hb Heq. apply (f_equal int_of_float) in Heq.
  rewrite !int_of_float_of_int in Heq by done. congruence.
Qed.

Lemma lookup_embed hash text (i : nat) :
  (i < 128)%nat ->
  embed hash text !! i
  = Some (float_of_int ((seed hash text * Z.of_nat i) mod 97)).
Proof.
  intros Hi. unfold embed.
  change (map ?f ?l) with (f <$> l).
  by rewrite list_lookup_fmap, lookup_seq_lt.
Qed.

(** X6: every element of an embedding is the float of an integer from 0 to
    96, and the first element is always 0.0. *)
Theorem embed_values hash text :
  Forall (fun x => exists k, 0 <= k < 97 /\ x = float_of_int k)
         (embed hash text) /\
  head (embed hash text) = Some (float_of_int 0).
Proof.
  split.
  - unfold embed. apply Forall_forall. intros x Hx.
    apply list_elem_of_fmap in Hx as (i & -> & _).
    eexists. split; [|reflexivity]. apply Z.mod_pos_bound. lia.
  - rewrite head_lookup, lookup_embed by lia.
    by rewrite Z.mul_0_r.
Qed.

(** X7: two texts have the same embedding exactly when their seeds,
    abs(hash(text)) % 1000, are congruent modulo 97; so the model has at
    most 97 different embeddings. *)
Theorem embed_eq_iff hash t1 t2 :
  embed hash t1 = embed hash t2
  <-> seed hash t1 mod 97 = seed hash t2 mod 97.
Proof.
  split.
  - intros Heq. apply (f_equal (fun v => v !! 1%nat)) in Heq.
    rewrite !lookup_embed in Heq by lia. injection Heq as Heq.
    rewrite !Z.mul_1_r in Heq.
    apply float_of_int_inj in Heq; [done| |]; apply Z.mod_pos_bound; lia.
  - intros Hseed. unfold embed. fold (seed hash t1) (seed hash t2).
    apply map_ext. intros i.
    rewrite <- (Z.mul_mod_idemp_l (seed hash t1)) by lia.
    rewrite <- (Z.mul_mod_idemp_l (seed hash t2)) by lia.
    by rewrite Hseed.
Qed.

(** * Further properties of the vector database and the pipeline *)

Section FurtherProperties.
Variable hash : string -> Z.
Variable uuid4 : nat -> string.

Local Abbreviation upsert := (upsert uuid4).
Local Abbreviation ingest_product := (ingest_product hash uuid4).
Local Abbreviation ingested := (ingested hash uuid4).
Local Abbreviation recorded := (recorded uuid4).
Local Abbreviation records_of := (records_of uuid4).
Local Abbreviation store_drawn := (store_drawn uuid4).

(** ** [MockVectorDB.upsert] *)

(** X8: provided uuid4 never repeats an identifier and the keys of the
    store were drawn from it, upsert never raises and never updates: it
    returns an identifier that was not in the store, under which the
    vector and the metadata are then found; every other entry of the
    store stays as it was, so the store grows by one entry; the ledgers
    are not touched. *)
Theorem upsert_creates vector metadata st :
  Inj (=) (=) uuid4 -> store_drawn st ->
  exists vector_id st',
    upsert vector metadata st = (Ok vector_id, st') /\
    store st !! vector_id = None /\
    store st' !! vector_id = Some (Entry.Make vector metadata) /\
    (forall k, k <> vector_id -> store st' !! k = store st !! k) /\
    size (store st') = S (size (store st)) /\
    products_table st' = products_table st /\
    embeddings_table st' = embeddings_table st /\
    store_drawn st'.
Proof.
  intros Hinj Hdrawn.
  pose proof (store_drawn_fresh uuid4 Hinj st (uuids st) Hdrawn ltac:(lia))
    as Hfresh.
  eexists _, _. split; [reflexivity|]. simpl. split_and!; try done.
  - apply lookup_insert_eq.
  - intros k Hk. by apply lookup_insert_ne.
  - by apply map_size_insert_None.
  - intros k. simpl. rewrite lookup_insert. case_decide as Hk.
    + intros _. exists (uuids st). split; [lia|done].
    + intros Hsome. destruct (Hdrawn k Hsome) as (n & Hlt & ->).
      exists n. split; [lia|done].
Qed.

(** X9: provided uuid4 never repeats an identifier, two upserts in a row
    return two different identifiers and leave two entries, each found
    under its identifier, also when both calls pass the same vector and
    the same metadata: nothing is merged. *)
Theorem upsert_twice vector1 metadata1 vector2 metadata2 st :
  Inj (=) (=) uuid4 ->
  exists id1 id2,
    (upsert vector1 metadata1 st).1 = Ok id1 /\
    (upsert vector2 metadata2 (upsert vector1 metadata1 st).2).1 = Ok id2 /\
    id1 <> id2 /\
    store (upsert vector2 metadata2 (upsert vector1 metadata1 st).2).2
      !! id1 = Some (Entry.Make vector1 metadata1) /\
    store (upsert vector2 metadata2 (upsert vector1 metadata1 st).2).2
      !! id2 = Some (Entry.Make vector2 metadata2).
Proof.
  intros Hinj. eexists _, _. split; [reflexivity|]. split; [reflexivity|].
  simpl.
  assert (uuid4 (uuids st) <> uuid4 (S (uuids st))) as Hne.
  { intros Heq. apply Hinj in Heq. lia. }
  split; [done|]. split.
  - rewrite lookup_insert_ne by done. apply lookup_insert_eq.
  - apply lookup_insert_eq.
Qed.

(** ** The outcomes of [ingest_product] *)

Lemma chunk_text_100_25 description chunks :
  chunk_text description 100 25 = Ok chunks ->
  exists text,
    description = PStr text /\
    chunks = map (chunk_at (split text) 100)
                 (starts (Z.of_nat (length (split text))) 75) /\
    (chunks = [] <-> split text = []).
Proof.
  destruct description as [|text|z]; [done| |done].
  rewrite chunk_text_eq by lia. intros [= <-].
  exists text. split; [done|]. split; [done|].
  pose proof (length_starts (Z.of_nat (length (split text))) 75
                ltac:(lia) ltac:(lia)) as Hlen.
  pose proof (ceil_div_mul_ge (Z.of_nat (length (split text))) 75
                ltac:(lia)) as Hge.
  change (100 - 25) with 75. split.
  - intros Hnil. apply (f_equal length) in Hnil.
    rewrite length_map in Hnil. simpl in Hnil.
    apply length_zero_iff_nil. lia.
  - intros ->. reflexivity.
Qed.

Lemma chunk_text_not_str description e :
  chunk_text description 100 25 = Raise e ->
  (forall text, description <> PStr text) /\ e = AttributeError.
Proof.
  destruct description as [|text|z].
  - simpl. by intros [= <-].
  - by rewrite chunk_text_eq by lia.
  - simpl. by intros [= <-].
Qed.

(** The converse of [ingest_product_ok]. *)
Lemma ingest_product_run_ok product st description chunks title :
  product !! "description" = Some description ->
  chunk_text description 100 25 = Ok chunks ->
  chunks = [] \/ product !! "title" = Some title ->
  ingest_product product st
  = (Ok PNone,
     printed
       (ingested_line (dict_get product "id" (PStr (uuid4 (uuids st))))
          chunks)
       (ingested product (dict_get product "id" (PStr (uuid4 (uuids st))))
          title 0 chunks (recorded product st))).
Proof.
  intros Hd Hc Hor. rewrite ingest_product_run. cbv zeta. rewrite Hd, Hc.
  destruct Hor as [->|Ht]; [done|].
  unfold enumerate. by rewrite (for_each_ingest_chunk _ _ _ _ title).
Qed.

(** A call that raises. *)
Lemma ingest_product_raise product st e st' :
  ingest_product product st = (Raise e, st') ->
  st' = recorded product st /\
  ((product !! "description" = None /\ e = KeyError "description") \/
   (exists description,
      product !! "description" = Some description /\
      (forall text, description <> PStr text) /\ e = AttributeError) \/
   (exists text,
      product !! "description" = Some (PStr text) /\
      split text <> [] /\ product !! "title" = None /\
      e = KeyError "title")).
Proof.
  rewrite ingest_product_run. cbv zeta.
  destruct (product !! "description") as [description|]; [|intros [= <- <-]; auto].
  destruct (chunk_text description 100 25) as [chunks|e'] eqn:Hc.
  - destruct (chunk_text_100_25 description chunks Hc)
      as (text & -> & _ & Hnil).
    destruct chunks as [|chunk chunks]; [done|].
    unfold enumerate. cbn [enumerate_from]. rewrite for_each_cons.
    destruct (product !! "title") as [title|] eqn:Ht.
    + rewrite (ingest_chunk_title _ _ _ _ title) by done.
      by rewrite (for_each_ingest_chunk _ _ _ _ title) by done.
    + rewrite ingest_chunk_no_title by done. intros [= <- <-].
      split; [done|]. right. right. exists text. split_and!; try done.
      intros Hsplit. by apply Hnil in Hsplit.
  - intros [= <- <-]. split; [done|]. right. left.
    destruct (chunk_text_not_str description e' Hc) as [Hns ->]. eauto.
Qed.

(** X10: a call of ingest_product that raises has recorded the product and
    drawn one identifier, and has done nothing else: the embeddings
    ledger, the store and the printed output are as before.  It raises
    KeyError for a missing description, AttributeError for a description
    that is not a string, and KeyError for a title missing from a product
    whose description has at least one word. *)
Theorem ingest_product_raises product st e st' :
  ingest_product product st = (Raise e, st') ->
  embeddings_table st' = embeddings_table st /\
  store st' = store st /\
  stdout st' = stdout st /\
  uuids st' = S (uuids st) /\
  products_table st'
  = <[dict_get product "id" (PStr (uuid4 (uuids st))) := product]>
      (products_table st) /\
  ((product !! "description" = None /\ e = KeyError "description") \/
   (exists description,
      product !! "description" = Some description /\
      (forall text, description <> PStr text) /\ e = AttributeError) \/
   (exists text,
      product !! "description" = Some (PStr text) /\
      split text <> [] /\ product !! "title" = None /\
      e = KeyError "title")).
Proof. intros [-> He]%ingest_product_raise. by split_and!. Qed.

(** X11: ingest_product ends without raising exactly when the description
    is a string and either that string has no word or the product has a
    title; the state it is called in plays no part. *)
Theorem ingest_product_succeeds_iff product st :
  (exists v st', ingest_product product st = (Ok v, st'))
  <-> exists text,
        product !! "description" = Some (PStr text) /\
        (split text = [] \/ is_Some (product !! "title")).
Proof.
  split.
  - intros (v & st' & Hrun).
    apply ingest_product_ok in Hrun
      as (description & chunks & title & Hd & Hc & Hor & _).
    destruct (chunk_text_100_25 description chunks Hc)
      as (text & -> & _ & Hnil).
    exists text. split; [done|]. destruct Hor as [Hchunks|Ht].
    + left. by apply Hnil.
    + right. by eexists.
  - intros (text & Hd & Hor).
    destruct (chunk_text (PStr text) 100 25) as [chunks|e] eqn:Hc.
    2:{ by rewrite chunk_text_eq in Hc by lia. }
    destruct (chunk_text_100_25 _ chunks Hc) as (text' & [= <-] & _ & Hnil).
    destruct Hor as [Hsplit|[title Ht]].
    + eexists _, _.
      apply (ingest_product_run_ok product st _ chunks PNone Hd Hc).
      left. by apply Hnil.
    + eexists _, _.
      apply (ingest_product_run_ok product st _ chunks title Hd Hc).
      by right.
Qed.

(** ** The rows and the entries a call leaves *)

Lemma text_chunks_records_of product_id idx n chunks :
  EmbeddingRecord.text_chunk <$> records_of product_id idx n chunks = chunks.
Proof.
  revert idx n. induction chunks as [|chunk chunks IH]; intros idx n;
    [done|]. simpl. by rewrite IH.
Qed.

Lemma chunk_ids_records_of product_id idx n chunks :
  EmbeddingRecord.chunk_id <$> records_of product_id idx n chunks
  = (fun j => py_str product_id +:+ "_" +:+ pretty j)
    <$> seq idx (length chunks).
Proof.
  revert idx n. induction chunks as [|chunk chunks IH]; intros idx n;
    [done|]. simpl. by rewrite IH.
Qed.

Lemma Forall_records_of product_id idx n chunks :
  Forall (fun r => EmbeddingRecord.embedding_model r = "mock" /\
                   EmbeddingRecord.product_id r = product_id)
         (records_of product_id idx n chunks).
Proof.
  revert idx n. induction chunks as [|chunk chunks IH]; intros idx n;
    simpl; [done|]. by constructor.
Qed.

Lemma chunk_id_inj (prefix : string) :
  Inj (=) (=) (fun j : nat => prefix +:+ "_" +:+ pretty j).
Proof.
  intros i j Heq. apply (inj (String.append prefix)) in Heq.
  apply (inj (String.append "_")) in Heq. by apply (inj pretty) in Heq.
Qed.

Lemma new_rows_ingested product product_id title chunks line st :
  new_rows st (printed line (ingested product product_id title 0 chunks
                               (recorded product st)))
  = records_of product_id 0 (S (uuids st)) chunks.
Proof.
  unfold new_rows. simpl. rewrite ingested_embeddings. simpl.
  by rewrite drop_app_length.
Qed.

Lemma ingested_store_subseteq product product_id title idx chunks st :
  Inj (=) (=) uuid4 -> store_drawn st ->
  store st ⊆ store (ingested product product_id title idx chunks st).
Proof.
  intros Hinj Hdrawn. apply map_subseteq_spec. intros k e Hk.
  rewrite ingested_store_other; [done|].
  intros j _ ->.
  by rewrite (store_drawn_fresh uuid4 Hinj st) in Hk by (done || lia).
Qed.

(** X12: the rows a successful call appends are, in order, one per chunk
    of the description; each holds its chunk as text, the resolved
    product_id, the model name "mock" and the chunk id
    "<product_id>_<position>"; the chunk ids of the call are pairwise
    distinct. *)
Theorem ingest_product_rows product st v st' :
  ingest_product product st = (Ok v, st') ->
  exists description chunks,
    product !! "description" = Some description /\
    chunk_text description 100 25 = Ok chunks /\
    embeddings_table st' = (embeddings_table st ++ new_rows st st')%list /\
    EmbeddingRecord.text_chunk <$> new_rows st st' = chunks /\
    EmbeddingRecord.chunk_id <$> new_rows st st'
    = (fun idx =>
         py_str (dict_get product "id" (PStr (uuid4 (uuids st))))
         +:+ "_" +:+ pretty idx) <$> seq 0 (length chunks) /\
    NoDup (EmbeddingRecord.chunk_id <$> new_rows st st') /\
    Forall (fun r =>
              EmbeddingRecord.embedding_model r = "mock" /\
              EmbeddingRecord.product_id r
              = dict_get product "id" (PStr (uuid4 (uuids st))))
           (new_rows st st').
Proof.
  intros (description & chunks & title & Hd & Hc & _ & -> & ->)
    %ingest_product_ok.
  exists description, chunks. rewrite new_rows_ingested.
  split_and!; try done.
  - simpl. by rewrite ingested_embeddings.
  - apply text_chunks_records_of.
  - apply chunk_ids_records_of.
  - rewrite chunk_ids_records_of.
    apply (NoDup_fmap_2 _ (Inj0 := chunk_id_inj _)), NoDup_seq.
  - apply Forall_records_of.
Qed.

(** X13: provided uuid4 never repeats an identifier and the keys of the
    store were drawn from it, every row a successful call appends names,
    by its vector_id, a store entry whose vector is the embedding of the
    row's chunk and whose metadata holds the resolved product_id, the
    product's title, its category ("unknown" when the product has none)
    and its price (None when the product has none). *)
Theorem ingest_product_entries product st v st' :
  Inj (=) (=) uuid4 -> store_drawn st ->
  ingest_product product st = (Ok v, st') ->
  Forall (fun r =>
    exists entry,
      store st' !! EmbeddingRecord.vector_id r = Some entry /\
      Entry.vector entry = embed hash (EmbeddingRecord.text_chunk r) /\
      Metadata.product_id (Entry.metadata entry)
      = dict_get product "id" (PStr (uuid4 (uuids st))) /\
      product !! "title" = Some (Metadata.title (Entry.metadata entry)) /\
      Metadata.category (Entry.metadata entry)
      = default (PStr "unknown") (product !! "category") /\
      Metadata.price (Entry.metadata entry)
      = default PNone (product !! "price"))
    (new_rows st st').
Proof.
  intros Hinj Hdrawn
    (description & chunks & title & Hd & Hc & Hor & -> & ->)
    %ingest_product_ok.
  rewrite new_rows_ingested. apply Forall_lookup. intros idx r.
  rewrite lookup_records_of.
  destruct (chunks !! idx) as [chunk|] eqn:Hidx; [|done].
  intros [= <-].
  destruct Hor as [->|Ht]; [done|].
  pose proof (ingested_store_new hash uuid4 Hinj product
                (dict_get product "id" (PStr (uuid4 (uuids st)))) title 0
                chunks (recorded product st) idx chunk Hidx) as Hnew.
  simpl in Hnew. eexists. split; [exact Hnew|]. by split_and!.
Qed.

(** X14: a successful call for a description of W words appends
    ceil(W / 75) rows and draws one identifier more than that. *)
Theorem ingest_product_count product st v st' :
  ingest_product product st = (Ok v, st') ->
  exists text,
    product !! "description" = Some (PStr text) /\
    Z.of_nat (length (new_rows st st'))
    = ceil_div (Z.of_nat (length (split text))) 75 /\
    uuids st' = (uuids st + 1 + length (new_rows st st'))%nat.
Proof.
  intros (description & chunks & title & Hd & Hc & _ & -> & ->)
    %ingest_product_ok.
  destruct (chunk_text_100_25 description chunks Hc)
    as (text & -> & Hchunks & _).
  exists text. split; [done|].
  rewrite new_rows_ingested, length_records_of. split.
  - rewrite Hchunks, length_map. apply length_starts; lia.
  - simpl. destruct (ingested_frame hash uuid4 product
      (dict_get product "id" (PStr (uuid4 (uuids st)))) title 0 chunks
      (recorded product st)) as (_ & _ & ->). simpl. lia.
Qed.


(** ** Calls in a row *)

(** X16: ingesting a product that has an id a second time does not update
    what the first call left: provided uuid4 never repeats an identifier
    and the keys of the store were drawn from it, the second call succeeds
    as the first did, leaves the Products Ledger as it was, and appends
    rows with the same chunk ids and the same texts as the first call,
    under new vector_ids; the store gains as many entries again. *)
Theorem ingest_product_again product st v st1 :
  Inj (=) (=) uuid4 -> store_drawn st ->
  is_Some (product !! "id") ->
  ingest_product product st = (Ok v, st1) ->
  exists v' st2,
    ingest_product product st1 = (Ok v', st2) /\
    products_table st2 = products_table st1 /\
    EmbeddingRecord.chunk_id <$> new_rows st1 st2
    = EmbeddingRecord.chunk_id <$> new_rows st st1 /\
    EmbeddingRecord.text_chunk <$> new_rows st1 st2
    = EmbeddingRecord.text_chunk <$> new_rows st st1 /\
    embeddings_table st2
    = (embeddings_table st ++ new_rows st st1 ++ new_rows st1 st2)%list /\
    NoDup (EmbeddingRecord.vector_id
           <$> (new_rows st st1 ++ new_rows st1 st2)%list) /\
    size (store st2)
    = (size (store st) + 2 * length (new_rows st st1))%nat.
Proof.
  intros Hinj Hdrawn [k Hid] Hrun.
  apply ingest_product_ok in Hrun
    as (description & chunks & title & Hd & Hc & Hor & -> & ->).
  unfold dict_get. rewrite Hid. simpl (default _ (Some k)).
  set (I1 := ingested product k title 0 chunks (recorded product st)).
  set (st1 := printed (ingested_line k chunks) I1).
  pose proof (ingest_product_run_ok product st1 description chunks title
                Hd Hc Hor) as Hrun2.
  unfold dict_get in Hrun2. rewrite Hid in Hrun2.
  simpl (default _ (Some k)) in Hrun2.
  set (I2 := ingested product k title 0 chunks (recorded product st1))
    in *.
  eexists _, _. split; [exact Hrun2|].
  destruct (ingested_frame hash uuid4 product k title 0 chunks
              (recorded product st)) as (Hp1 & _ & Hu1).
  destruct (ingested_frame hash uuid4 product k title 0 chunks
              (recorded product st1)) as (Hp2 & _ & _).
  destruct (ingested_store_size hash uuid4 Hinj product k title 0 chunks
              (recorded product st)) as [Hs1 Hd1];
    [by apply recorded_drawn|].
  destruct (ingested_store_size hash uuid4 Hinj product k title 0 chunks
              (recorded product st1)) as [Hs2 _].
  { apply recorded_drawn. exact Hd1. }
  pose proof (new_rows_ingested product k title chunks
                (ingested_line k chunks) st) as Hrows1.
  pose proof (new_rows_ingested product k title chunks
                (ingested_line k chunks) st1) as Hrows2.
  unfold dict_get in Hrows1, Hrows2. fold I1 st1 I2 in Hrows1, Hrows2.
  fold I1 in Hp1, Hu1, Hs1, Hd1. fold I2 in Hp2, Hs2.
  rewrite Hrows1, Hrows2.
  assert (uuids st1 = (S (uuids st) + length chunks)%nat) as Hst1
    by exact Hu1.
  split_and!.
  - change (products_table I2 = products_table I1).
    rewrite Hp2, Hp1. simpl. rewrite Hp1. simpl.
    unfold dict_get. rewrite Hid. simpl. apply insert_insert_eq.
  - by rewrite !chunk_ids_records_of.
  - by rewrite !text_chunks_records_of.
  - change (embeddings_table I2
            = (embeddings_table st ++ records_of k 0 (S (uuids st)) chunks
               ++ records_of k 0 (S (uuids st1)) chunks)%list).
    unfold I2. rewrite ingested_embeddings.
    change (embeddings_table (recorded product st1))
      with (embeddings_table I1).
    unfold I1 at 1. rewrite ingested_embeddings. simpl.
    by rewrite <- app_assoc.
  - rewrite fmap_app, !vector_ids_records_of, <- fmap_app.
    apply (NoDup_fmap_2 _), NoDup_app. split; [apply NoDup_seq|].
    split; [|apply NoDup_seq].
    intros i Hi Hi'. apply elem_of_seq in Hi, Hi'. lia.
  - change (size (store I2)
            = (size (store st)
               + 2 * length (records_of k 0 (S (uuids st)) chunks))%nat).
    rewrite Hs2.
    change (store (recorded product st1)) with (store I1).
    rewrite Hs1. simpl. rewrite length_records_of. lia.
Qed.

(** X17: provided uuid4 never repeats an identifier, two calls in a row
    for products without an id record them under two different generated
    identifiers, also when both calls pass the same product, and whatever
    the outcome of the calls. *)
Theorem ingest_product_fresh_ids product1 product2 st :
  Inj (=) (=) uuid4 ->
  product1 !! "id" = None -> product2 !! "id" = None ->
  uuid4 (uuids st) <> uuid4 (uuids (ingest_product product1 st).2) /\
  products_table
    (ingest_product product2 (ingest_product product1 st).2).2
    !! PStr (uuid4 (uuids st)) = Some product1 /\
  products_table
    (ingest_product product2 (ingest_product product1 st).2).2
    !! PStr (uuid4 (uuids (ingest_product product1 st).2)) = Some product2.
Proof.
  intros Hinj Hid1 Hid2.
  destruct (ingest_product_products hash uuid4 product1 st) as [Hp1 Hlt].
  destruct (ingest_product_products hash uuid4 product2
              (ingest_product product1 st).2) as [Hp2 _].
  rewrite Hp2, Hp1. unfold dict_get. rewrite Hid1, Hid2. simpl.
  assert (uuid4 (uuids st) <> uuid4 (uuids (ingest_product product1 st).2))
    as Hne.
  { intros Heq. apply Hinj in Heq. lia. }
  split; [done|]. split.
  - rewrite lookup_insert_ne by congruence. apply lookup_insert_eq.
  - apply lookup_insert_eq.
Qed.

(** X18: two calls in a row for products with the same id leave the
    Products Ledger holding the second product under that id, and nothing
    of the first: the last write wins, whatever the outcome of the
    calls. *)
Theorem ingest_product_overwrites product1 product2 k st :
  product1 !! "id" = Some k -> product2 !! "id" = Some k ->
  products_table
    (ingest_product product2 (ingest_product product1 st).2).2
  = <[k := product2]> (products_table st).
Proof.
  intros Hid1 Hid2.
  destruct (ingest_product_products hash uuid4 product1 st) as [Hp1 _].
  destruct (ingest_product_products hash uuid4 product2
              (ingest_product product1 st).2) as [Hp2 _].
  rewrite Hp2, Hp1. unfold dict_get. rewrite Hid1, Hid2. simpl.
  apply insert_insert_eq.
Qed.

(** ** The link between the ledger and the store, over a whole run *)

Lemma ingested_store_dom product product_id title idx chunks st :
  dom (store (ingested product product_id title idx chunks st))
  = dom (store st)
    ∪ list_to_set (uuid4 <$> seq (uuids st) (length chunks)).
Proof.
  revert idx st. induction chunks as [|chunk chunks IH]; intros idx st.
  - simpl. by rewrite (right_id_L ∅ (∪)).
  - cbn [ingested]. rewrite IH. simpl.
    rewrite dom_insert_L, (assoc_L (∪)).
    by rewrite (comm_L (∪) (dom (store st))).
Qed.

Lemma linked_ingested product product_id title chunks line st :
  Inj (=) (=) uuid4 -> store_drawn st ->
  chunks = [] \/ product !! "title" = Some title ->
  linked hash st ->
  linked hash (printed line (ingested product product_id title 0 chunks
                               (recorded product st))).
Proof.
  intros Hinj Hdrawn Hor (Hnodup & Hdom & Hrows).
  pose proof (recorded_drawn uuid4 product st Hdrawn) as Hdrawn'.
  unfold linked. simpl. rewrite ingested_embeddings. simpl.
  rewrite fmap_app, vector_ids_records_of. split_and!.
  - apply NoDup_app. split; [done|]. split.
    + intros x Hx Hx'.
      apply (elem_of_list_to_set (C := gset string)) in Hx.
      rewrite <- Hdom in Hx. apply elem_of_dom in Hx.
      apply list_elem_of_fmap in Hx' as (j & -> & Hj).
      apply elem_of_seq in Hj.
      rewrite (store_drawn_fresh uuid4 Hinj st) in Hx by (done || lia).
      by destruct Hx.
    + apply (NoDup_fmap_2 _), NoDup_seq.
  - rewrite ingested_store_dom. simpl.
    by rewrite list_to_set_app_L, Hdom.
  - apply Forall_app. split.
    + eapply Forall_impl; [exact Hrows|]. simpl.
      intros r (entry & Hentry & Hrest). exists entry. split; [|done].
      eapply lookup_weaken; [exact Hentry|].
      by apply (ingested_store_subseteq product product_id title 0 chunks
                  (recorded product st)).
    + apply Forall_lookup. intros idx r. rewrite lookup_records_of.
      destruct (chunks !! idx) as [chunk|] eqn:Hidx; [|done].
      intros [= <-]. destruct Hor as [->|Ht]; [done|].
      pose proof (ingested_store_new hash uuid4 Hinj product product_id
                    title 0 chunks (recorded product st) idx chunk Hidx)
        as Hnew.
      simpl in Hnew. eexists. split; [exact Hnew|]. by split_and!.
Qed.

(** X19: provided uuid4 never repeats an identifier, in every state a
    pipeline reaches from its creation through calls of ingest_product,
    failed ones included, the ledger and the store are linked one to
    one: the rows carry pairwise distinct vector_ids, these are exactly
    the keys of the store, so the store has as many entries as the ledger
    has rows, and the entry a row names holds the embedding of the row's
    chunk with the row's chunk_id and product_id. *)
Theorem reachable_linked st :
  Inj (=) (=) uuid4 ->
  reachable hash uuid4 st ->
  linked hash st /\
  size (store st) = length (embeddings_table st) /\
  store_drawn st.
Proof.
  intros Hinj Hreach.
  assert (linked hash st /\ store_drawn st) as [Hlinked Hdrawn].
  { induction Hreach as [n out|product st Hreach [IH Hdrawn]].
    - split; [|apply init_drawn]. unfold linked. simpl.
      split_and!; [constructor|apply dom_empty_L|constructor].
    - split; [|by apply ingest_product_drawn].
      destruct (ingest_product product st) as [[v|e] st'] eqn:Hrun.
      + apply ingest_product_ok in Hrun
          as (description & chunks & title & _ & _ & Hor & _ & ->).
        by apply linked_ingested.
      + apply ingest_product_raise in Hrun as [-> _]. exact IH. }
  split; [done|]. split; [|done].
  destruct Hlinked as (Hnodup & Hdom & _).
  rewrite <- size_dom, Hdom, size_list_to_set by done.
  apply length_fmap.
Qed.
End FurtherProperties.

(** ** Further properties in the sample environment *)

Lemma sample_run :
  ingest_product sample_hash sample_uuid4 sample_product (init 0 [])
  = (Ok PNone, sample_state).
Proof. vm_compute. reflexivity. Qed.

Lemma upsert_creates_witness :
  exists vector_id st',
    upsert sample_uuid4 [] (metadata_of sample_product PNone PNone 0)
      (init 0 [])
    = (Ok vector_id, st') /\
    store (init 0 []) !! vector_id = None /\
    store st' !! vector_id
    = Some (Entry.Make [] (metadata_of sample_product PNone PNone 0)) /\
    (forall k, k <> vector_id -> store st' !! k = store (init 0 []) !! k) /\
    size (store st') = S (size (store (init 0 []))) /\
    products_table st' = products_table (init 0 []) /\
    embeddings_table st' = embeddings_table (init 0 []) /\
    store_drawn sample_uuid4 st'.
Proof.
  apply (upsert_creates sample_uuid4 []
           (metadata_of sample_product PNone PNone 0) (init 0 [])).
  - exact sample_uuid4_inj.
  - exact (init_drawn sample_uuid4 0 []).
Defined.

Lemma upsert_twice_witness :
  exists id1 id2,
    (upsert sample_uuid4 [] (metadata_of sample_product PNone PNone 0)
       (init 0 [])).1 = Ok id1 /\
    (upsert sample_uuid4 [] (metadata_of sample_product PNone PNone 0)
       (upsert sample_uuid4 [] (metadata_of sample_product PNone PNone 0)
          (init 0 [])).2).1 = Ok id2 /\
    id1 <> id2 /\
    store
      (upsert sample_uuid4 [] (metadata_of sample_product PNone PNone 0)
         (upsert sample_uuid4 [] (metadata_of sample_product PNone PNone 0)
            (init 0 [])).2).2
      !! id1
    = Some (Entry.Make [] (metadata_of sample_product PNone PNone 0)) /\
    store
      (upsert sample_uuid4 [] (metadata_of sample_product PNone PNone 0)
         (upsert sample_uuid4 [] (metadata_of sample_product PNone PNone 0)
            (init 0 [])).2).2
      !! id2
    = Some (Entry.Make [] (metadata_of sample_product PNone PNone 0)).
Proof.
  apply (upsert_twice sample_uuid4 []
           (metadata_of sample_product PNone PNone 0) []
           (metadata_of sample_product PNone PNone 0) (init 0 [])).
  exact sample_uuid4_inj.
Defined.

Lemma ingest_product_raises_witness :
  embeddings_table (recorded sample_uuid4 untitled (init 0 []))
  = embeddings_table (init 0 []) /\
  store (recorded sample_uuid4 untitled (init 0 []))
  = store (init 0 []) /\
  stdout (recorded sample_uuid4 untitled (init 0 []))
  = stdout (init 0 []) /\
  uuids (recorded sample_uuid4 untitled (init 0 []))
  = S (uuids (init 0 [])) /\
  products_table (recorded sample_uuid4 untitled (init 0 []))
  = <[dict_get untitled "id" (PStr (sample_uuid4 0))
      := untitled]> (products_table (init 0 [])) /\
  ((untitled !! "description" = None /\
    KeyError "title" = KeyError "description") \/
   (exists description,
      untitled !! "description" = Some description /\
      (forall text, description <> PStr text) /\
      KeyError "title" = AttributeError) \/
   (exists text,
      untitled !! "description" = Some (PStr text) /\
      split text <> [] /\ untitled !! "title" = None /\
      KeyError "title" = KeyError "title")).
Proof.
  apply (ingest_product_raises sample_hash sample_uuid4 untitled
           (init 0 []) (KeyError "title")).
  vm_compute. reflexivity.
Defined.

Lemma ingest_product_rows_witness :
  exists description chunks,
    sample_product !! "description" = Some description /\
    chunk_text description 100 25 = Ok chunks /\
    embeddings_table sample_state
    = (embeddings_table (init 0 []) ++ new_rows (init 0 []) sample_state)%list
    /\
    EmbeddingRecord.text_chunk <$> new_rows (init 0 []) sample_state = chunks
    /\
    EmbeddingRecord.chunk_id <$> new_rows (init 0 []) sample_state
    = (fun idx =>
         py_str (dict_get sample_product "id" (PStr (sample_uuid4 0)))
         +:+ "_" +:+ pretty idx) <$> seq 0 (length chunks) /\
    NoDup (EmbeddingRecord.chunk_id <$> new_rows (init 0 []) sample_state) /\
    Forall (fun r =>
              EmbeddingRecord.embedding_model r = "mock" /\
              EmbeddingRecord.product_id r
              = dict_get sample_product "id" (PStr (sample_uuid4 0)))
           (new_rows (init 0 []) sample_state).
Proof.
  apply (ingest_product_rows sample_hash sample_uuid4 sample_product
           (init 0 []) PNone sample_state).
  exact sample_run.
Defined.

Lemma ingest_product_entries_witness :
  Forall (fun r =>
    exists entry,
      store sample_state !! EmbeddingRecord.vector_id r = Some entry /\
      Entry.vector entry
      = embed sample_hash (EmbeddingRecord.text_chunk r) /\
      Metadata.product_id (Entry.metadata entry)
      = dict_get sample_product "id" (PStr (sample_uuid4 0)) /\
      sample_product !! "title"
      = Some (Metadata.title (Entry.metadata entry)) /\
      Metadata.category (Entry.metadata entry)
      = default (PStr "unknown") (sample_product !! "category") /\
      Metadata.price (Entry.metadata entry)
      = default PNone (sample_product !! "price"))
    (new_rows (init 0 []) sample_state).
Proof.
  apply (ingest_product_entries sample_hash sample_uuid4 sample_product
           (init 0 []) PNone sample_state).
  - exact sample_uuid4_inj.
  - exact (init_drawn sample_uuid4 0 []).
  - exact sample_run.
Defined.

Lemma ingest_product_count_witness :
  exists text,
    sample_product !! "description" = Some (PStr text) /\
    Z.of_nat (length (new_rows (init 0 []) sample_state))
    = ceil_div (Z.of_nat (length (split text))) 75 /\
    uuids sample_state
    = (uuids (init 0 []) + 1
       + length (new_rows (init 0 []) sample_state))%nat.
Proof.
  apply (ingest_product_count sample_hash sample_uuid4 sample_product
           (init 0 []) PNone sample_state).
  exact sample_run.
Defined.


Lemma ingest_product_again_witness :
  exists v' st2,
    ingest_product sample_hash sample_uuid4 sample_product sample_state
    = (Ok v', st2) /\
    products_table st2 = products_table sample_state /\
    EmbeddingRecord.chunk_id <$> new_rows sample_state st2
    = EmbeddingRecord.chunk_id <$> new_rows (init 0 []) sample_state /\
    EmbeddingRecord.text_chunk <$> new_rows sample_state st2
    = EmbeddingRecord.text_chunk <$> new_rows (init 0 []) sample_state /\
    embeddings_table st2
    = (embeddings_table (init 0 []) ++ new_rows (init 0 []) sample_state
       ++ new_rows sample_state st2)%list /\
    NoDup (EmbeddingRecord.vector_id
           <$> (new_rows (init 0 []) sample_state
                ++ new_rows sample_state st2)%list) /\
    size (store st2)
    = (size (store (init 0 []))
       + 2 * length (new_rows (init 0 []) sample_state))%nat.
Proof.
  apply (ingest_product_again sample_hash sample_uuid4 sample_product
           (init 0 []) PNone sample_state).
  - exact sample_uuid4_inj.
  - exact (init_drawn sample_uuid4 0 []).
  - by eexists.
  - exact sample_run.
Defined.

Lemma ingest_product_fresh_ids_witness :
  sample_uuid4 (uuids (init 0 []))
  <> sample_uuid4
       (uuids (ingest_product sample_hash sample_uuid4 anonymous
                 (init 0 [])).2) /\
  products_table
    (ingest_product sample_hash sample_uuid4 anonymous
       (ingest_product sample_hash sample_uuid4 anonymous (init 0 [])).2).2
    !! PStr (sample_uuid4 (uuids (init 0 []))) = Some anonymous /\
  products_table
    (ingest_product sample_hash sample_uuid4 anonymous
       (ingest_product sample_hash sample_uuid4 anonymous (init 0 [])).2).2
    !! PStr (sample_uuid4
               (uuids (ingest_product sample_hash sample_uuid4 anonymous
                         (init 0 [])).2))
  = Some anonymous.
Proof.
  apply (ingest_product_fresh_ids sample_hash sample_uuid4 anonymous
           anonymous (init 0 [])).
  - exact sample_uuid4_inj.
  - reflexivity.
  - reflexivity.
Defined.

Lemma ingest_product_overwrites_witness :
  products_table
    (ingest_product sample_hash sample_uuid4 (blank "P1")
       (ingest_product sample_hash sample_uuid4 no_description
          (init 0 [])).2).2
  = <[PStr "P1" := blank "P1"]> (products_table (init 0 [])).
Proof.
  apply (ingest_product_overwrites sample_hash sample_uuid4 no_description
           (blank "P1") (PStr "P1") (init 0 [])); reflexivity.
Defined.

Lemma reachable_linked_witness :
  linked sample_hash sample_state /\
  size (store sample_state) = length (embeddings_table sample_state) /\
  store_drawn sample_uuid4 sample_state.
Proof.
  apply (reachable_linked sample_hash sample_uuid4 sample_state).
  - exact sample_uuid4_inj.
  - apply (reachable_ingest sample_hash sample_uuid4 sample_product
             (init 0 [])), reachable_init.
Defined.
